(** * Rod: page controller, wait handlers and input devices

    A shallow embedding of [page.go] and [input.go] of the rod browser
    automation driver.  Every CDP call goes through one client; the model
    threads a [World] (the calls issued so far and the mutable state of the
    page and of its input devices) through a small state monad, and takes the
    browser's answers from an oracle over the call history.

    The tracing and slow-motion hooks ([tryTrace], [trySlowMotion]) only
    observe and are left out.  Each device holds its lock for the whole of a
    call, so the calls of a device are run one at a time. *)

From Stdlib Require Import ZArith.
From stdpp Require Import gmap strings list fin_maps.

Set Warnings "-clear-no-such-hyp".

(** ** Identifiers of the protocol

    [proto.TargetTargetID], [proto.PageFrameID], [proto.TargetSessionID],
    [proto.NetworkRequestID] and [proto.NetworkResourceType] are string
    types. *)

Abbreviation TargetTargetID := string (only parsing).
Abbreviation PageFrameID := string (only parsing).
Abbreviation TargetSessionID := string (only parsing).
Abbreviation NetworkRequestID := string (only parsing).
Abbreviation NetworkResourceType := string (only parsing).
Abbreviation RuntimeRemoteObjectID := string (only parsing).

(** Go's [error] values that the modelled functions build or test for.  A nil
    error is [None] of [option error]. *)
Inductive error : Type :=
| ErrNotAttachedToActivePage            (* cdp.ErrNotAttachedToActivePage *)
| ErrCall (msg : string)                (* any other failure of a CDP call *)
| ErrNew (msg : string)                 (* errors.New(msg) *)
| NavigationError (Reason : string)     (* &NavigationError{Reason} *)
| PageCloseCanceledError.               (* &PageCloseCanceledError{} *)

#[global] Instance error_eq_dec : EqDecision error.
Proof. solve_decision. Defined.

(** [errors.Is(err, cdp.ErrNotAttachedToActivePage)] *)
Definition errors_Is_NotAttached (err : option error) : bool :=
  match err with
  | Some ErrNotAttachedToActivePage => true
  | _ => false
  end.

(** [proto.InputDispatchKeyEventType], the two values [input.go] uses. *)
Inductive InputDispatchKeyEventType : Type :=
| InputDispatchKeyEventTypeKeyDown
| InputDispatchKeyEventTypeKeyUp.

#[global] Instance InputDispatchKeyEventType_eq_dec : EqDecision InputDispatchKeyEventType.
Proof. solve_decision. Defined.

(** [proto.InputDispatchMouseEventType] *)
Inductive InputDispatchMouseEventType : Type :=
| InputDispatchMouseEventTypeMousePressed
| InputDispatchMouseEventTypeMouseReleased
| InputDispatchMouseEventTypeMouseMoved
| InputDispatchMouseEventTypeMouseWheel.

(** [KeyActionType]: [KeyActionPress], [KeyActionRelease], [KeyActionTypeKey]. *)
Inductive KeyActionType : Type :=
| KeyActionPress
| KeyActionRelease
| KeyActionTypeKey.

#[global] Instance KeyActionType_eq_dec : EqDecision KeyActionType.
Proof. solve_decision. Defined.

(** [proto.EmulationSetDeviceMetricsOverride]: the fields [Screenshot]
    writes, and one of the fields it carries over from the stored request. *)
Record EmulationSetDeviceMetricsOverride : Type := mkMetrics {
  Width : Z;
  Height : Z;
  Mobile : bool
}.

(** The zero value [proto.EmulationSetDeviceMetricsOverride{}]. *)
Definition EmulationSetDeviceMetricsOverride_zero : EmulationSetDeviceMetricsOverride :=
  {| Width := 0; Height := 0; Mobile := false |}.

(** [proto.PageCaptureScreenshot] *)
Record PageCaptureScreenshot : Type := mkCapture {
  Format : string
}.

(** ** Events

    Modelled from the spec: the message type and [Message.Load] are not in
    [page.go]; an event envelope is [{session_id, method_name, payload}] and
    decodes into the typed event whose method it carries.  The payload is
    kept decoded, one constructor per event type the page controller
    consumes. *)

(** [proto.TargetTargetDestroyed] *)
Record TargetTargetDestroyed : Type := mkDestroyed {
  DestroyedTargetID : TargetTargetID
}.

(** [proto.TargetDetachedFromTarget] *)
Record TargetDetachedFromTarget : Type := mkDetached {
  DetachedSessionID : TargetSessionID
}.

(** [proto.PageJavascriptDialogClosed] *)
Record PageJavascriptDialogClosed : Type := mkDialogClosed {
  ClosedResult : bool
}.

(** [proto.NetworkRequestWillBeSent]: [RequestID], [Request.URL], [Type]. *)
Record NetworkRequestWillBeSent : Type := mkWillBeSent {
  SentRequestID : NetworkRequestID;
  SentURL : string;
  SentType : NetworkResourceType
}.

(** [proto.NetworkLoadingFinished] *)
Record NetworkLoadingFinished : Type := mkFinished {
  FinishedRequestID : NetworkRequestID
}.

(** [proto.NetworkLoadingFailed] *)
Record NetworkLoadingFailed : Type := mkFailed {
  FailedRequestID : NetworkRequestID
}.

Inductive Payload : Type :=
| EvTargetDestroyed (e : TargetTargetDestroyed)
| EvDetachedFromTarget (e : TargetDetachedFromTarget)
| EvJavascriptDialogClosed (e : PageJavascriptDialogClosed)
| EvRequestWillBeSent (e : NetworkRequestWillBeSent)
| EvLoadingFinished (e : NetworkLoadingFinished)
| EvLoadingFailed (e : NetworkLoadingFailed)
| EvOther (Method : string).

Record Message : Type := mkMessage {
  MsgSessionID : TargetSessionID;
  MsgPayload : Payload
}.

(** [msg.Load(&e)] for each event type: whether the message is of that type,
    and the value [e] holds afterwards (loaded on a match, untouched
    otherwise). *)
Definition Load_TargetDestroyed (msg : Message) (e : TargetTargetDestroyed)
  : bool * TargetTargetDestroyed :=
  match MsgPayload msg with
  | EvTargetDestroyed d => (true, d)
  | _ => (false, e)
  end.

Definition Load_DetachedFromTarget (msg : Message) (e : TargetDetachedFromTarget)
  : bool * TargetDetachedFromTarget :=
  match MsgPayload msg with
  | EvDetachedFromTarget d => (true, d)
  | _ => (false, e)
  end.

Definition Load_JavascriptDialogClosed (msg : Message) (e : PageJavascriptDialogClosed)
  : bool * PageJavascriptDialogClosed :=
  match MsgPayload msg with
  | EvJavascriptDialogClosed d => (true, d)
  | _ => (false, e)
  end.

(** [msg.Load(e)] with [e] passed by value: Go copies the struct into the
    interface, so the caller learns whether the type matches and its own
    variable keeps the value it had. *)
Definition LoadByValue_TargetDestroyed (msg : Message) (e : TargetTargetDestroyed) : bool :=
  fst (Load_TargetDestroyed msg e).

Section Rod.

(** ** What the repository keeps outside [page.go] and [input.go]

    [input.Key] with its [Modifier] bit, [proto.InputMouseButton] with
    [input.EncodeMouseButton], and [float64] coordinates are declared in
    packages that are taken as parameters here. *)

Context {Key : Type} {Key_eq_dec : EqDecision Key} {Key_countable : Countable Key}.
Context {InputMouseButton : Type} {InputMouseButton_eq_dec : EqDecision InputMouseButton}.
Context {float64 : Type}.

(** [key.Modifier()] *)
Variable Modifier : Key → Z.

(** [input.EncodeMouseButton(buttons)] *)
Variable EncodeMouseButton : list InputMouseButton → InputMouseButton * Z.

(** The conversion [int(f)] of a [float64]. *)
Variable int_of_float64 : float64 → Z.

(** [proto.Point] *)
Record Point : Type := mkPoint { X : float64; Y : float64 }.

(** [proto.DOMRect], the two fields read by [Screenshot]. *)
Record DOMRect : Type := mkRect { RectWidth : float64; RectHeight : float64 }.

(** [proto.InputDispatchMouseEvent], the fields [input.go] fills in. *)
Record InputDispatchMouseEvent : Type := mkMouseEvent {
  MouseType : InputDispatchMouseEventType;
  MouseX : float64;
  MouseY : float64;
  Button : InputMouseButton;
  Buttons : Z;
  ClickCount : Z;
  MouseModifiers : Z
}.

(** [proto.InputDispatchKeyEvent] as built by [key.Encode(type, modifiers)]:
    the event type, the key the remaining fields are derived from, and the
    modifier mask. *)
Record InputDispatchKeyEvent : Type := mkKeyEvent {
  KeyType : InputDispatchKeyEventType;
  KeyOf : Key;
  KeyModifiers : Z
}.

Definition Key_Encode (t : InputDispatchKeyEventType) (key : Key) (modifiers : Z)
  : InputDispatchKeyEvent :=
  {| KeyType := t; KeyOf := key; KeyModifiers := modifiers |}.

(** The CDP requests issued by the modelled functions. *)
Inductive Request : Type :=
| ReqInputDispatchKeyEvent (e : InputDispatchKeyEvent)
| ReqInputDispatchMouseEvent (e : InputDispatchMouseEvent)
| ReqPageStopLoading
| ReqPageNavigate (URL : string)
| ReqPageClose
| ReqPageGetLayoutMetrics
| ReqEmulationSetDeviceMetricsOverride (view : EmulationSetDeviceMetricsOverride)
| ReqEmulationClearDeviceMetricsOverride
| ReqPageCaptureScreenshot (req : PageCaptureScreenshot).

(** The decoded body of a successful response. *)
Inductive Result : Type :=
| ResEmpty
| ResPageNavigate (ErrorText : string)
| ResPageGetLayoutMetrics (CSSContentSize : option DOMRect)
| ResPageCaptureScreenshot (Data : string).

Inductive Reply : Type :=
| ReplyOk (r : Result)
| ReplyErr (e : error).

(** A call is addressed to a session. *)
Definition Sent : Type := TargetSessionID * Request.

(** The browser: the reply to a call, given the calls issued before it. *)
Variable browser : list Sent → Sent → Reply.

(** [sync.Map] of request states kept by the browser object, read by
    [LoadState]: the device-metrics override recorded for a session, given
    the calls issued so far. *)
Variable states : list Sent → TargetSessionID → option EmulationSetDeviceMetricsOverride.

(** ** The world *)

(** The slots [*proto.RuntimeRemoteObjectID] that pages point to are named by
    positive numbers. *)

Record World : Type := mkWorld {
  trace : list Sent;                        (* calls issued, oldest first *)
  pressed : gset Key;                       (* Keyboard.pressed *)
  buttons : list InputMouseButton;          (* Mouse.buttons *)
  pos : Point;                              (* Mouse.pos *)
  jsCtx : gmap positive RuntimeRemoteObjectID; (* targets of Page.jsCtxID *)
  cleaned : list TargetTargetID             (* pages whose states were cleaned up *)
}.

Definition set_trace (t : list Sent) (w : World) : World :=
  mkWorld t (pressed w) (buttons w) (pos w) (jsCtx w) (cleaned w).
Definition set_pressed (s : gset Key) (w : World) : World :=
  mkWorld (trace w) s (buttons w) (pos w) (jsCtx w) (cleaned w).
Definition set_buttons (b : list InputMouseButton) (w : World) : World :=
  mkWorld (trace w) (pressed w) b (pos w) (jsCtx w) (cleaned w).
Definition set_jsCtx (j : gmap positive RuntimeRemoteObjectID) (w : World) : World :=
  mkWorld (trace w) (pressed w) (buttons w) (pos w) j (cleaned w).
Definition set_cleaned (c : list TargetTargetID) (w : World) : World :=
  mkWorld (trace w) (pressed w) (buttons w) (pos w) (jsCtx w) c.

(** State passing. *)
Definition M (A : Type) : Type := World → A * World.

#[local] Instance M_ret : MRet M := λ A a w, (a, w).
#[local] Instance M_bind : MBind M :=
  λ A B f m w, let '(a, w1) := m w in f a w1.

Definition get : M World := λ w, (w, w).
Definition modify (f : World → World) : M unit := λ w, (tt, f w).

(** [Page.Call]: hand the request to the browser and record it. *)
Definition Call (sid : TargetSessionID) (req : Request) : M Reply :=
  λ w, (browser (trace w) (sid, req), set_trace (trace w ++ [(sid, req)]) w).

(** The [error] half of a generated [Call] method. *)
Definition Reply_err (r : Reply) : option error :=
  match r with
  | ReplyOk _ => None
  | ReplyErr e => Some e
  end.

(** ** Page *)

(** [Page]: the identifiers, the pointer [jsCtxID], and [root] ([None] for
    a page that is its own root). *)
#[warnings="-register-all"]
Inductive Page : Type := mkPage {
  TargetID : TargetTargetID;
  FrameID : PageFrameID;
  SessionID : TargetSessionID;
  jsCtxID : positive;
  root : option Page
}.

Definition Page_root (p : Page) : Page :=
  match root p with
  | Some r => r
  | None => p
  end.

(** ** Keyboard *)

(** [Page.newKeyboard]: nothing is pressed. *)
Definition Page_newKeyboard (w : World) : World := set_pressed ∅ w.

(** [Keyboard.modifiers]: or together the modifier bits of the pressed
    keys. *)
Definition modifiers_of (keys : list Key) : Z :=
  foldl (λ ms key, Z.lor ms (Modifier key)) 0%Z keys.

Definition Keyboard_modifiers (w : World) : Z :=
  modifiers_of (elements (pressed w)).

(** [Keyboard.getModifiers] *)
Definition Keyboard_getModifiers : M Z :=
  w ← get; mret (Keyboard_modifiers w).

(** [Keyboard.Press] *)
Definition Keyboard_Press (p : Page) (key : Key) : M (option error) :=
  modify (λ w, set_pressed ({[key]} ∪ pressed w) w);;
  w ← get;
  r ← Call (SessionID p)
        (ReqInputDispatchKeyEvent
           (Key_Encode InputDispatchKeyEventTypeKeyDown key (Keyboard_modifiers w)));
  mret (Reply_err r).

(** [Keyboard.Release] *)
Definition Keyboard_Release (p : Page) (key : Key) : M (option error) :=
  w ← get;
  if decide (key ∈ pressed w) then
    modify (λ w, set_pressed (pressed w ∖ {[key]}) w);;
    w ← get;
    r ← Call (SessionID p)
          (ReqInputDispatchKeyEvent
             (Key_Encode InputDispatchKeyEventTypeKeyUp key (Keyboard_modifiers w)));
    mret (Reply_err r)
  else mret None.

(** [Keyboard.Type] *)
Fixpoint Keyboard_Type (p : Page) (keys : list Key) : M (option error) :=
  match keys with
  | [] => mret None
  | key :: keys' =>
      err ← Keyboard_Press p key;
      match err with
      | Some e => mret (Some e)
      | None =>
          err ← Keyboard_Release p key;
          match err with
          | Some e => mret (Some e)
          | None => Keyboard_Type p keys'
          end
      end
  end.

(** ** KeyActions *)

(** [KeyAction] *)
Record KeyAction : Type := mkKeyAction {
  KAType : KeyActionType;
  KAKey : Key
}.

(** [KeyActions.Press], [KeyActions.Release], [KeyActions.Type]: append one
    action per key. *)
Definition KeyActions_Press (keys : list Key) (Actions : list KeyAction) : list KeyAction :=
  foldl (λ acts key, acts ++ [mkKeyAction KeyActionPress key]) Actions keys.

Definition KeyActions_Release (keys : list Key) (Actions : list KeyAction) : list KeyAction :=
  foldl (λ acts key, acts ++ [mkKeyAction KeyActionRelease key]) Actions keys.

Definition KeyActions_Type (keys : list Key) (Actions : list KeyAction) : list KeyAction :=
  foldl (λ acts key, acts ++ [mkKeyAction KeyActionTypeKey key]) Actions keys.

(** First loop of [balance]: [h[a.Key] = true] on a press, [false] on a
    release or a type. *)
Definition balance_record (h : gmap Key bool) (a : KeyAction) : gmap Key bool :=
  match KAType a with
  | KeyActionPress => <[KAKey a := true]> h
  | KeyActionRelease | KeyActionTypeKey => <[KAKey a := false]> h
  end.

Definition balance_h (actions : list KeyAction) : gmap Key bool :=
  foldl balance_record ∅ actions.

(** Body of the second loop of [balance]. *)
Definition balance_append (actions : list KeyAction) (entry : Key * bool) : list KeyAction :=
  if entry.2 then actions ++ [mkKeyAction KeyActionRelease entry.1] else actions.

(** Go visits the entries of a map once each, in an order it does not fix:
    [order] is one such visit of [h]. *)
Definition range_of (h : gmap Key bool) (order : list (Key * bool)) : Prop :=
  order ≡ₚ map_to_list h.

(** [KeyActions.balance] when the second loop visits [h] in [order]. *)
Definition KeyActions_balance_in (order : list (Key * bool)) (actions : list KeyAction)
  : list KeyAction :=
  foldl balance_append actions order.

(** [KeyActions.balance] with the order [map_to_list] gives. *)
Definition KeyActions_balance (actions : list KeyAction) : list KeyAction :=
  KeyActions_balance_in (map_to_list (balance_h actions)) actions.

(** The switch of [KeyActions.Do]. *)
Definition KeyActions_perform (p : Page) (a : KeyAction) : M (option error) :=
  match KAType a with
  | KeyActionPress => Keyboard_Press p (KAKey a)
  | KeyActionRelease => Keyboard_Release p (KAKey a)
  | KeyActionTypeKey => Keyboard_Type p [KAKey a]
  end.

(** The loop of [KeyActions.Do]: stop at the first error. *)
Fixpoint KeyActions_each (p : Page) (actions : list KeyAction) : M (option error) :=
  match actions with
  | [] => mret None
  | a :: rest =>
      err ← KeyActions_perform p a;
      match err with
      | Some e => mret (Some e)
      | None => KeyActions_each p rest
      end
  end.

(** [KeyActions.Do], for a visit order of [balance]'s map. *)
Definition KeyActions_Do_in (order : list (Key * bool)) (p : Page) (actions : list KeyAction)
  : M (option error) :=
  KeyActions_each p (KeyActions_balance_in order actions).

Definition KeyActions_Do (p : Page) (actions : list KeyAction) : M (option error) :=
  KeyActions_each p (KeyActions_balance actions).

(** ** Mouse *)

(** [Page.newMouse]: no button is held. *)
Definition Page_newMouse (w : World) : World := set_buttons [] w.

(** The [proto.InputDispatchMouseEvent] literal of [Mouse.Down] and
    [Mouse.Up], for the stack [toButtons] the call would leave. *)
Definition Mouse_event (t : InputDispatchMouseEventType)
    (toButtons : list InputMouseButton) (button : InputMouseButton) (clickCount : Z)
    (modifiers : Z) (at_ : Point) : InputDispatchMouseEvent :=
  let '(_, btns) := EncodeMouseButton toButtons in
  {| MouseType := t;
     Button := button;
     Buttons := btns;
     ClickCount := clickCount;
     MouseModifiers := modifiers;
     MouseX := X at_;
     MouseY := Y at_ |}.

(** [Mouse.Down] *)
Definition Mouse_Down (p : Page) (button : InputMouseButton) (clickCount : Z)
  : M (option error) :=
  w ← get;
  let toButtons := buttons w ++ [button] in
  ms ← Keyboard_getModifiers;
  r ← Call (SessionID p)
        (ReqInputDispatchMouseEvent
           (Mouse_event InputDispatchMouseEventTypeMousePressed
              toButtons button clickCount ms (pos w)));
  match Reply_err r with
  | Some e => mret (Some e)
  | None => modify (set_buttons toButtons);; mret None
  end.

(** [Mouse.Up] *)
Definition Mouse_Up (p : Page) (button : InputMouseButton) (clickCount : Z)
  : M (option error) :=
  w ← get;
  let toButtons := filter (λ btn, btn ≠ button) (buttons w) in
  ms ← Keyboard_getModifiers;
  r ← Call (SessionID p)
        (ReqInputDispatchMouseEvent
           (Mouse_event InputDispatchMouseEventTypeMouseReleased
              toButtons button clickCount ms (pos w)));
  match Reply_err r with
  | Some e => mret (Some e)
  | None => modify (set_buttons toButtons);; mret None
  end.

(** A caller's sequence of [Down] and [Up] calls; each call's error is the
    caller's to look at, the next call is made regardless. *)
Inductive MouseOp : Type :=
| OpDown (button : InputMouseButton) (clickCount : Z)
| OpUp (button : InputMouseButton) (clickCount : Z).

Definition Mouse_op (p : Page) (op : MouseOp) : M (option error) :=
  match op with
  | OpDown b n => Mouse_Down p b n
  | OpUp b n => Mouse_Up p b n
  end.

Fixpoint Mouse_ops (p : Page) (ops : list MouseOp) : M (list (option error)) :=
  match ops with
  | [] => mret []
  | op :: rest =>
      err ← Mouse_op p op;
      errs ← Mouse_ops p rest;
      mret (err :: errs)
  end.

(** The spec's wording for [Mouse.Up]: drop the first entry equal to
    [button], keep the rest in order. *)
Fixpoint remove_first (button : InputMouseButton) (l : list InputMouseButton)
  : list InputMouseButton :=
  match l with
  | [] => []
  | btn :: rest => if decide (btn = button) then rest else btn :: remove_first button rest
  end.

(** No [Down] of [ops] presses a button that is on the stack at that
    moment. *)
Fixpoint Mouse_no_repress (p : Page) (ops : list MouseOp) (w : World) : Prop :=
  match ops with
  | [] => True
  | op :: rest =>
      match op with
      | OpDown b _ => b ∉ buttons w
      | OpUp _ _ => True
      end ∧ Mouse_no_repress p rest (snd (Mouse_op p op w))
  end.

(** ** Page: navigation *)

(** [Page.StopLoading] *)
Definition Page_StopLoading (p : Page) : M (option error) :=
  r ← Call (SessionID p) ReqPageStopLoading;
  mret (Reply_err r).

(** [res.ErrorText] of a [proto.PageNavigateResult]; a field the response
    does not carry decodes to the zero value. *)
Definition PageNavigateResult_ErrorText (r : Result) : string :=
  match r with
  | ResPageNavigate t => t
  | _ => ""
  end.

(** Modelled from the spec: [unsetJSCtxID] is not in [page.go]; it clears the
    JS context handle, the slot the page's [jsCtxID] points to, which the
    page's clones share. *)
Definition Page_unsetJSCtxID (p : Page) : M unit :=
  modify (λ w, set_jsCtx (<[jsCtxID p := ""]> (jsCtx w)) w).

(** [Page.Navigate] *)
Definition Page_Navigate (p : Page) (url : string) : M (option error) :=
  let url := if decide (url = "") then "about:blank" else url in
  _ ← Page_StopLoading p;
  r ← Call (SessionID p) (ReqPageNavigate url);
  match r with
  | ReplyErr e => mret (Some e)
  | ReplyOk res =>
      if decide (PageNavigateResult_ErrorText res ≠ "")
      then mret (Some (NavigationError (PageNavigateResult_ErrorText res)))
      else Page_unsetJSCtxID (Page_root p);; mret None
  end.

(** ** Page: close *)

(** The first loop of [Page.Close]: call [Page.close] until the answer is not
    [ErrNotAttachedToActivePage].  [None] when [fuel] calls were all answered
    that way (the loop is then still running). *)
Fixpoint Page_Close_call (fuel : nat) (p : Page) : M (option (option error)) :=
  match fuel with
  | O => mret None
  | S fuel' =>
      r ← Call (SessionID p) ReqPageClose;
      if errors_Is_NotAttached (Reply_err r)
      then Page_Close_call fuel' p
      else mret (Some (Reply_err r))
  end.

(** Body of the second loop of [Page.Close]: the new values of [success] and
    [stop]. *)
Definition Page_Close_msg (p : Page) (success : bool) (msg : Message) : bool * bool :=
  let destroyed := mkDestroyed "" in
  let closed := mkDialogClosed false in
  let '(isDestroyed, destroyed) := Load_TargetDestroyed msg destroyed in
  if isDestroyed then
    (success, bool_decide (DestroyedTargetID destroyed = TargetID p))
  else if bool_decide (MsgSessionID msg = SessionID p)
          && fst (Load_JavascriptDialogClosed msg closed) then
    let closed := snd (Load_JavascriptDialogClosed msg closed) in
    (ClosedResult closed, negb (ClosedResult closed))
  else (success, false).

(** The second loop of [Page.Close] over the messages the channel delivers
    before it is closed: the final value of [success]. *)
Fixpoint Page_Close_messages (p : Page) (success : bool) (messages : list Message) : bool :=
  match messages with
  | [] => success
  | msg :: rest =>
      let '(success, stop) := Page_Close_msg p success msg in
      if stop then success else Page_Close_messages p success rest
  end.

(** Modelled from the spec: [cleanupStates] is not in [page.go]; it is the
    cleanup [Close] runs on success, recorded here by the page's target. *)
Definition Page_cleanupStates (p : Page) : M unit :=
  modify (λ w, set_cleaned (cleaned w ++ [TargetID p]) w).

(** [Page.Close] *)
Definition Page_Close (fuel : nat) (p : Page) (messages : list Message)
  : M (option (option error)) :=
  r ← Page_Close_call fuel p;
  match r with
  | None => mret None
  | Some (Some e) => mret (Some (Some e))
  | Some None =>
      if Page_Close_messages p true messages
      then Page_cleanupStates p;; mret (Some None)
      else mret (Some (Some PageCloseCanceledError))
  end.

(** ** Page: screenshot *)

(** [Page.SetViewport] *)
Definition Page_SetViewport (p : Page) (params : option EmulationSetDeviceMetricsOverride)
  : M (option error) :=
  match params with
  | None => r ← Call (SessionID p) ReqEmulationClearDeviceMetricsOverride; mret (Reply_err r)
  | Some v => r ← Call (SessionID p) (ReqEmulationSetDeviceMetricsOverride v); mret (Reply_err r)
  end.

(** [p.LoadState(&oldView)]: whether an override is recorded, and the value
    of [oldView] afterwards. *)
Definition Page_LoadState (p : Page) (oldView : EmulationSetDeviceMetricsOverride)
  : M (bool * EmulationSetDeviceMetricsOverride) :=
  w ← get;
  match states (trace w) (SessionID p) with
  | Some v => mret (true, v)
  | None => mret (false, oldView)
  end.

(** [metrics.CSSContentSize] *)
Definition PageGetLayoutMetricsResult_CSSContentSize (r : Result) : option DOMRect :=
  match r with
  | ResPageGetLayoutMetrics size => size
  | _ => None
  end.

(** [shot.Data] *)
Definition PageCaptureScreenshotResult_Data (r : Result) : string :=
  match r with
  | ResPageCaptureScreenshot data => data
  | _ => ""
  end.

(** The last three statements of [Page.Screenshot]: [req.Call(p)]. *)
Definition Page_Screenshot_capture (p : Page) (req : PageCaptureScreenshot)
  : M (string + error) :=
  r ← Call (SessionID p) (ReqPageCaptureScreenshot req);
  match r with
  | ReplyErr e => mret (inr e)
  | ReplyOk res => mret (inl (PageCaptureScreenshotResult_Data res))
  end.

(** The deferred function of [Page.Screenshot]. *)
Definition Page_Screenshot_recover (p : Page) (set : bool)
    (oldView : EmulationSetDeviceMetricsOverride) : M unit :=
  if negb set then
    _ ← Call (SessionID p) ReqEmulationClearDeviceMetricsOverride; mret tt
  else
    _ ← Page_SetViewport p (Some oldView); mret tt.

(** [Page.Screenshot]; the deferred function runs after the statements that
    follow its registration, whatever they return. *)
Definition Page_Screenshot (p : Page) (fullPage : bool) (req : option PageCaptureScreenshot)
  : M (string + error) :=
  let req := default (mkCapture "") req in
  if fullPage then
    r ← Call (SessionID p) ReqPageGetLayoutMetrics;
    match r with
    | ReplyErr e => mret (inr e)
    | ReplyOk metrics =>
        match PageGetLayoutMetricsResult_CSSContentSize metrics with
        | None => mret (inr (ErrNew "failed to get css content size"))
        | Some size =>
            '(set, oldView) ← Page_LoadState p EmulationSetDeviceMetricsOverride_zero;
            let view := {| Width := int_of_float64 (RectWidth size);
                           Height := int_of_float64 (RectHeight size);
                           Mobile := Mobile oldView |} in
            err ← Page_SetViewport p (Some view);
            match err with
            | Some e => mret (inr e)
            | None =>
                out ← Page_Screenshot_capture p req;
                Page_Screenshot_recover p set oldView;;
                mret out
            end
        end
    end
  else Page_Screenshot_capture p req.

(** ** Page: the event dispatcher *)

(** The loop of the goroutine [Page.initEvents] starts, over the messages the
    browser's channel delivers: the messages published to the page's own
    observable, and whether [sessionCancel] was called. *)
Fixpoint Page_initEvents (p : Page) (event : list Message) : list Message * bool :=
  match event with
  | [] => ([], false)
  | msg :: rest =>
      let detached := mkDetached "" in
      let destroyed := mkDestroyed "" in
      let '(isDetached, detached) := Load_DetachedFromTarget msg detached in
      if (isDetached && bool_decide (DetachedSessionID detached = SessionID p))
         || (LoadByValue_TargetDestroyed msg destroyed
             && bool_decide (DestroyedTargetID destroyed = TargetID p))
      then ([], true)
      else if bool_decide (MsgSessionID msg ≠ SessionID p)
      then Page_initEvents p rest
      else
        let '(published, cancelled) := Page_initEvents p rest in
        (msg :: published, cancelled)
  end.

(** ** Page: waiting for the requests to settle *)

(** [genRegMatcher(includes, excludes)], declared outside [page.go]. *)
Variable genRegMatcher : list string → list string → string → bool.

(** The state the handlers of [WaitRequestIdle] close over.

    Modelled from the spec: [utils.IdleCounter] is not in [page.go]; it is a
    counter of the jobs in flight, which [Add] raises and [Done] lowers by
    one. *)
Record RequestIdle : Type := mkRequestIdle {
  waitList : gmap NetworkRequestID string;
  idleCounter : Z
}.

Definition IdleCounter_Add (st : RequestIdle) : RequestIdle :=
  mkRequestIdle (waitList st) (idleCounter st + 1).

Definition IdleCounter_Done (st : RequestIdle) : RequestIdle :=
  mkRequestIdle (waitList st) (idleCounter st - 1).

(** The defaults [WaitRequestIdle] fills in: a nil [excludeTypes], an empty
    [includes]. *)
Definition WaitRequestIdle_excludeTypes (excludeTypes : option (list NetworkResourceType))
  : list NetworkResourceType :=
  match excludeTypes with
  | None => ["WebSocket"; "EventSource"; "Media"; "Image"; "Font"]
  | Some ts => ts
  end.

Definition WaitRequestIdle_includes (includes : list string) : list string :=
  if decide (length includes = 0) then [""] else includes.

(** The closure [checkDone]. *)
Definition WaitRequestIdle_checkDone (id : NetworkRequestID) (st : RequestIdle) : RequestIdle :=
  match waitList st !! id with
  | Some _ => IdleCounter_Done (mkRequestIdle (delete id (waitList st)) (idleCounter st))
  | None => st
  end.

(** The callback for [proto.NetworkRequestWillBeSent]. *)
Definition WaitRequestIdle_onSent (includes excludes : list string)
    (excludeTypes : list NetworkResourceType)
    (sent : NetworkRequestWillBeSent) (st : RequestIdle) : RequestIdle :=
  if existsb (λ t, bool_decide (SentType sent = t)) excludeTypes then st
  else if genRegMatcher includes excludes (SentURL sent) then
    match waitList st !! SentRequestID sent with
    | Some _ => st
    | None =>
        IdleCounter_Add
          (mkRequestIdle (<[SentRequestID sent := SentURL sent]> (waitList st)) (idleCounter st))
    end
  else st.

(** The three callbacks handed to [EachEvent], applied to one event. *)
Definition WaitRequestIdle_event (includes excludes : list string)
    (excludeTypes : list NetworkResourceType)
    (ev : Payload) (st : RequestIdle) : RequestIdle :=
  match ev with
  | EvRequestWillBeSent sent => WaitRequestIdle_onSent includes excludes excludeTypes sent st
  | EvLoadingFinished e => WaitRequestIdle_checkDone (FinishedRequestID e) st
  | EvLoadingFailed e => WaitRequestIdle_checkDone (FailedRequestID e) st
  | _ => st
  end.

(** Modelled from the spec: [eachEvent] is not in [page.go]; the callbacks see
    the events of the page's own session, in the order they were delivered.
    [WaitRequestIdle] starts from an empty wait list and a counter at zero. *)
Definition WaitRequestIdle_handlers (p : Page) (includes excludes : list string)
    (excludeTypes : option (list NetworkResourceType))
    (messages : list Message) : RequestIdle :=
  foldl (λ st msg,
           if bool_decide (MsgSessionID msg = SessionID p)
           then WaitRequestIdle_event (WaitRequestIdle_includes includes) excludes
                  (WaitRequestIdle_excludeTypes excludeTypes) (MsgPayload msg) st
           else st)
        (mkRequestIdle ∅ 0) messages.

(** ** Page: waiting for the page to be stable *)

(** The three functions [WaitStable] hands to [utils.All]. *)
Inductive StableTask : Type :=
| TaskWaitLoad
| TaskWaitRequestIdle
| TaskWaitDOMStable.

#[global] Instance StableTask_eq_dec : EqDecision StableTask.
Proof. solve_decision. Defined.

(** [err] and [setErr] of [WaitStable]: the error variable, and whether the
    [sync.Once] has run. *)
Record StableErr : Type := mkStableErr {
  setErr_done : bool;
  err : option error
}.

(** [setErr.Do(func() { err = e })] *)
Definition setErr_Do (e : option error) (s : StableErr) : StableErr :=
  if setErr_done s then s else mkStableErr true e.

(** What a function does when it finishes; [eLoad] and [eDOM] are what
    [WaitLoad] and [WaitDOMStable] returned. *)
Definition WaitStable_finish (eLoad eDOM : option error) (s : StableErr) (t : StableTask)
  : StableErr :=
  match t with
  | TaskWaitLoad => setErr_Do eLoad s
  | TaskWaitRequestIdle => s
  | TaskWaitDOMStable => setErr_Do eDOM s
  end.

(** Modelled from the spec: [utils.All] is not in [page.go]; it runs the
    functions in parallel and returns when all of them have completed.
    [finished] is the order in which they complete. *)
Definition Page_WaitStable (finished : list StableTask) (eLoad eDOM : option error)
  : option error :=
  err (foldl (WaitStable_finish eLoad eDOM) (mkStableErr false None) finished).

(** Every function completes, once. *)
Definition all_complete (finished : list StableTask) : Prop :=
  finished ≡ₚ [TaskWaitLoad; TaskWaitRequestIdle; TaskWaitDOMStable].

(** ** Further operations of the devices and of the page *)

Definition set_pos (at_ : Point) (w : World) : World :=
  mkWorld (trace w) (pressed w) (buttons w) at_ (jsCtx w) (cleaned w).

(** [m.page.browser.trace], and what [Mouse.MoveTo] does when it is set
    ([updateMouseTracer], [initMouseTracer]), declared outside [input.go]. *)
Variable tracing : bool.
Variable mouseTracer : M unit.

(** [Mouse.Position] *)
Definition Mouse_Position : M Point :=
  w ← get; mret (pos w).

(** [Mouse.MoveTo] *)
Definition Mouse_MoveTo (p : Page) (to : Point) : M (option error) :=
  w ← get;
  let '(button, btns) := EncodeMouseButton (buttons w) in
  ms ← Keyboard_getModifiers;
  r ← Call (SessionID p)
        (ReqInputDispatchMouseEvent
           {| MouseType := InputDispatchMouseEventTypeMouseMoved;
              MouseX := X to;
              MouseY := Y to;
              Button := button;
              Buttons := btns;
              ClickCount := 0;
              MouseModifiers := ms |});
  match Reply_err r with
  | Some e => mret (Some e)
  | None =>
      modify (set_pos to);;
      (if tracing then mouseTracer else mret tt);;
      mret None
  end.

(** [Mouse.MoveAlong]; [guide] lists what the guide function answers, call
    after call.  [None] when the answers run out before one says stop (the
    loop is then still running). *)
Fixpoint Mouse_MoveAlong (p : Page) (guide : list (Point * bool))
  : M (option (option error)) :=
  match guide with
  | [] => mret None
  | (to, stop) :: rest =>
      if stop then
        e ← Mouse_MoveTo p to; mret (Some e)
      else
        e ← Mouse_MoveTo p to;
        match e with
        | Some e => mret (Some (Some e))
        | None => Mouse_MoveAlong p rest
        end
  end.

(** [Mouse.Click] *)
Definition Mouse_Click (p : Page) (button : InputMouseButton) (clickCount : Z)
  : M (option error) :=
  e ← Mouse_Down p button clickCount;
  match e with
  | Some e => mret (Some e)
  | None => Mouse_Up p button clickCount
  end.

(** [Page.String]: the first eight bytes of the target id. *)
Definition Page_String (p : Page) : string :=
  let id := TargetID p in
  let id := if decide (8 < String.length id) then String.substring 0 8 id else id in
  "<page:" +:+ id +:+ ">".

(** The loop of [Page.SetExtraHeaders], which fills [headers] from the pairs
    of [dict]; [None] when the index [i+1] is out of range and Go panics. *)
Fixpoint SetExtraHeaders_headers (dict : list string) (headers : gmap string string)
  : option (gmap string string) :=
  match dict with
  | [] => Some headers
  | [_] => None
  | name :: value :: rest => SetExtraHeaders_headers rest (<[name := value]> headers)
  end.

(** The callbacks of [WaitRequestIdle] over the events they are called with,
    from the empty wait list. *)
Definition WaitRequestIdle_events (includes excludes : list string)
    (excludeTypes : option (list NetworkResourceType)) (events : list Payload)
  : RequestIdle :=
  foldl (λ st ev,
           WaitRequestIdle_event (WaitRequestIdle_includes includes) excludes
             (WaitRequestIdle_excludeTypes excludeTypes) ev st)
        (mkRequestIdle ∅ 0) events.

(** ** Vocabulary of the properties *)

(** The spec's wording for [balance]: the type of the last action the list
    records for [key], if it records one. *)
Definition final_action (key : Key) (actions : list KeyAction) : option KeyActionType :=
  last (KAType <$> filter (λ a, KAKey a = key) actions).

(** The releases the second loop of [balance] appends when it visits the map
    in [order]. *)
Definition balance_releases (order : list (Key * bool)) : list KeyAction :=
  (λ entry, mkKeyAction KeyActionRelease entry.1) <$> filter (λ entry, entry.2 = true) order.

(** The pressed set after an action that met no error. *)
Definition pressed_after (s : gset Key) (a : KeyAction) : gset Key :=
  match KAType a with
  | KeyActionPress => {[KAKey a]} ∪ s
  | KeyActionRelease | KeyActionTypeKey => s ∖ {[KAKey a]}
  end.

(** The key events a run of [actions] without error sends, from the pressed
    set [s]. *)
Fixpoint key_events (s : gset Key) (actions : list KeyAction) : list InputDispatchKeyEvent :=
  match actions with
  | [] => []
  | a :: rest =>
      let down := Key_Encode InputDispatchKeyEventTypeKeyDown (KAKey a)
                    (modifiers_of (elements ({[KAKey a]} ∪ s))) in
      match KAType a with
      | KeyActionPress => [down]
      | KeyActionRelease =>
          if decide (KAKey a ∈ s)
          then [Key_Encode InputDispatchKeyEventTypeKeyUp (KAKey a)
                  (modifiers_of (elements (s ∖ {[KAKey a]})))]
          else []
      | KeyActionTypeKey =>
          [down;
           Key_Encode InputDispatchKeyEventTypeKeyUp (KAKey a)
             (modifiers_of (elements (({[KAKey a]} ∪ s) ∖ {[KAKey a]})))]
      end ++ key_events (pressed_after s a) rest
  end.

(** The messages of the page's session. *)
Definition own_messages (p : Page) (event : list Message) : list Message :=
  filter (λ msg, MsgSessionID msg = SessionID p) event.

(** The request that carries a key event of the page. *)
Definition key_sent (p : Page) (e : InputDispatchKeyEvent) : Sent :=
  (SessionID p, ReqInputDispatchKeyEvent e).

(** The keys of the keyUp events among [events], in order. *)
Definition keyUps (events : list InputDispatchKeyEvent) : list Key :=
  KeyOf <$> filter (λ e, KeyType e = InputDispatchKeyEventTypeKeyUp) events.

(** * Properties *)

(** ** Keyboard *)

(** The mask does not depend on the order in which Go visits the map. *)
Lemma modifiers_of_from (keys : list Key) (ms : Z) :
  foldl (λ ms key, Z.lor ms (Modifier key)) ms keys = Z.lor ms (modifiers_of keys).
Proof.
  unfold modifiers_of. revert ms.
  induction keys as [|k keys IH] using rev_ind; intros ms; simpl.
  - by rewrite Z.lor_0_r.
  - rewrite !foldl_snoc, IH. simpl. by rewrite Z.lor_assoc.
Qed.

Lemma modifiers_of_cons (k : Key) (keys : list Key) :
  modifiers_of (k :: keys) = Z.lor (Modifier k) (modifiers_of keys).
Proof. unfold modifiers_of at 1. simpl. apply modifiers_of_from. Qed.

Lemma modifiers_of_perm (l1 l2 : list Key) :
  l1 ≡ₚ l2 → modifiers_of l1 = modifiers_of l2.
Proof.
  induction 1 as [|x l1 l2 _ IH|x y l|l1 l2 l3 _ IH1 _ IH2].
  - done.
  - by rewrite !modifiers_of_cons, IH.
  - rewrite !modifiers_of_cons, !Z.lor_assoc. f_equal. apply Z.lor_comm.
  - congruence.
Qed.

Lemma Keyboard_Press_eq (p : Page) (key : Key) (w : World) :
  Keyboard_Press p key w =
  let w1 := set_pressed ({[key]} ∪ pressed w) w in
  let ev := ReqInputDispatchKeyEvent
              (Key_Encode InputDispatchKeyEventTypeKeyDown key (Keyboard_modifiers w1)) in
  (Reply_err (browser (trace w) (SessionID p, ev)),
   set_trace (trace w ++ [(SessionID p, ev)]) w1).
Proof. reflexivity. Qed.

Lemma Keyboard_Release_pressed (p : Page) (key : Key) (w : World) :
  key ∈ pressed w →
  Keyboard_Release p key w =
  let w1 := set_pressed (pressed w ∖ {[key]}) w in
  let ev := ReqInputDispatchKeyEvent
              (Key_Encode InputDispatchKeyEventTypeKeyUp key (Keyboard_modifiers w1)) in
  (Reply_err (browser (trace w) (SessionID p, ev)),
   set_trace (trace w ++ [(SessionID p, ev)]) w1).
Proof.
  intros Hin. unfold Keyboard_Release, mbind, M_bind, get. simpl.
  by rewrite decide_True.
Qed.

Lemma Keyboard_Release_idle (p : Page) (key : Key) (w : World) :
  key ∉ pressed w → Keyboard_Release p key w = (None, w).
Proof.
  intros Hin. unfold Keyboard_Release, mbind, M_bind, get. simpl.
  by rewrite decide_False.
Qed.

Lemma Keyboard_Press_pressed (p : Page) (key : Key) (w : World) :
  pressed (snd (Keyboard_Press p key w)) = {[key]} ∪ pressed w.
Proof. reflexivity. Qed.

Lemma Keyboard_Release_sent (p : Page) (key : Key) (w : World) :
  key ∈ pressed w →
  pressed (snd (Keyboard_Release p key w)) = pressed w ∖ {[key]} ∧
  trace (snd (Keyboard_Release p key w)) =
    trace w ++
    [(SessionID p,
      ReqInputDispatchKeyEvent
        (Key_Encode InputDispatchKeyEventTypeKeyUp key
           (modifiers_of (elements (pressed w ∖ {[key]})))))].
Proof. intros Hin. by rewrite Keyboard_Release_pressed. Qed.

(** C5: [Keyboard.Release] of a key that is not pressed returns nil and sends
    nothing; of a pressed key, it removes the key and sends one keyUp event
    whose modifier mask is that of the set after the removal, whatever order
    the set is visited in.  On a fresh keyboard, press Shift, press A, release
    Shift, release A sends two keyUp events with modifiers 0 (A carries no
    modifier bit). *)
Theorem Keyboard_Release_spec (p : Page) (w : World) :
  (∀ key, key ∉ pressed w → Keyboard_Release p key w = (None, w)) ∧
  (∀ key, key ∈ pressed w →
     ∃ ms,
       (∀ order, order ≡ₚ elements (pressed w ∖ {[key]}) → modifiers_of order = ms) ∧
       let ev := ReqInputDispatchKeyEvent
                   (Key_Encode InputDispatchKeyEventTypeKeyUp key ms) in
       fst (Keyboard_Release p key w) = Reply_err (browser (trace w) (SessionID p, ev)) ∧
       pressed (snd (Keyboard_Release p key w)) = pressed w ∖ {[key]} ∧
       trace (snd (Keyboard_Release p key w)) = trace w ++ [(SessionID p, ev)]) ∧
  (∀ shift a, shift ≠ a → Modifier a = 0%Z →
     let w1 := snd (Keyboard_Press p shift (Page_newKeyboard w)) in
     let w2 := snd (Keyboard_Press p a w1) in
     let w3 := snd (Keyboard_Release p shift w2) in
     let w4 := snd (Keyboard_Release p a w3) in
     trace w3 = trace w2 ++
       [(SessionID p, ReqInputDispatchKeyEvent
                        (Key_Encode InputDispatchKeyEventTypeKeyUp shift 0%Z))] ∧
     trace w4 = trace w3 ++
       [(SessionID p, ReqInputDispatchKeyEvent
                        (Key_Encode InputDispatchKeyEventTypeKeyUp a 0%Z))] ∧
     pressed w4 = ∅).
Proof.
  split; [|split].
  - intros key Hin. by apply Keyboard_Release_idle.
  - intros key Hin. exists (modifiers_of (elements (pressed w ∖ {[key]}))).
    split; [intros order Hp; by apply modifiers_of_perm|].
    destruct (Keyboard_Release_sent p key w Hin) as [Hp Ht].
    rewrite Keyboard_Release_pressed by done. done.
  - intros shift a Hne Ha w1 w2 w3 w4.
    assert (H1 : pressed w1 = {[shift]}).
    { subst w1. rewrite Keyboard_Press_pressed. unfold Page_newKeyboard. simpl. set_solver. }
    assert (H2 : pressed w2 = {[a; shift]}).
    { subst w2. rewrite Keyboard_Press_pressed, H1. set_solver. }
    assert (Hin2 : shift ∈ pressed w2) by (rewrite H2; set_solver).
    destruct (Keyboard_Release_sent p shift w2 Hin2) as [H3 Ht3].
    fold w3 in H3, Ht3.
    assert (Hs3 : pressed w2 ∖ {[shift]} = {[a]}) by (rewrite H2; set_solver).
    rewrite Hs3 in H3, Ht3. rewrite elements_singleton in Ht3.
    assert (Hin3 : a ∈ pressed w3) by (rewrite H3; set_solver).
    destruct (Keyboard_Release_sent p a w3 Hin3) as [H4 Ht4].
    fold w4 in H4, Ht4.
    assert (Hs4 : pressed w3 ∖ {[a]} = ∅) by (rewrite H3; set_solver).
    rewrite Hs4 in H4, Ht4. rewrite elements_empty in Ht4.
    clearbody w1 w2 w3 w4.
    rewrite Ht4, Ht3, H4. unfold modifiers_of. simpl. by rewrite Ha.
Qed.

(** ** Mouse *)

Lemma Mouse_Down_eq (p : Page) (button : InputMouseButton) (clickCount : Z) (w : World) :
  Mouse_Down p button clickCount w =
  let toButtons := buttons w ++ [button] in
  let sent := (SessionID p,
               ReqInputDispatchMouseEvent
                 (Mouse_event InputDispatchMouseEventTypeMousePressed
                    toButtons button clickCount (Keyboard_modifiers w) (pos w))) in
  let w1 := set_trace (trace w ++ [sent]) w in
  match Reply_err (browser (trace w) sent) with
  | Some e => (Some e, w1)
  | None => (None, set_buttons toButtons w1)
  end.
Proof.
  unfold Mouse_Down, mbind, M_bind, get, Call. simpl.
  by destruct (Reply_err _).
Qed.

Lemma Mouse_Up_eq (p : Page) (button : InputMouseButton) (clickCount : Z) (w : World) :
  Mouse_Up p button clickCount w =
  let toButtons := filter (λ btn, btn ≠ button) (buttons w) in
  let sent := (SessionID p,
               ReqInputDispatchMouseEvent
                 (Mouse_event InputDispatchMouseEventTypeMouseReleased
                    toButtons button clickCount (Keyboard_modifiers w) (pos w))) in
  let w1 := set_trace (trace w ++ [sent]) w in
  match Reply_err (browser (trace w) sent) with
  | Some e => (Some e, w1)
  | None => (None, set_buttons toButtons w1)
  end.
Proof.
  unfold Mouse_Up, mbind, M_bind, get, Call. simpl.
  by destruct (Reply_err _).
Qed.

(** After [Up], the stack is the old one or the old one without [button]. *)
Lemma Mouse_Up_buttons (p : Page) (button : InputMouseButton) (clickCount : Z) (w : World) :
  buttons (snd (Mouse_Up p button clickCount w)) =
    match fst (Mouse_Up p button clickCount w) with
    | Some _ => buttons w
    | None => filter (λ btn, btn ≠ button) (buttons w)
    end.
Proof. rewrite Mouse_Up_eq. simpl. by destruct (Reply_err _). Qed.

Lemma Mouse_Down_buttons (p : Page) (button : InputMouseButton) (clickCount : Z) (w : World) :
  buttons (snd (Mouse_Down p button clickCount w)) =
    match fst (Mouse_Down p button clickCount w) with
    | Some _ => buttons w
    | None => buttons w ++ [button]
    end.
Proof. rewrite Mouse_Down_eq. simpl. by destruct (Reply_err _). Qed.

Lemma remove_first_absent (button : InputMouseButton) (l : list InputMouseButton) :
  button ∉ l → remove_first button l = l.
Proof.
  induction l as [|x l IH]; intros Hin; simpl; [done|].
  rewrite decide_False by set_solver. f_equal. apply IH. set_solver.
Qed.

Lemma filter_absent (button : InputMouseButton) (l : list InputMouseButton) :
  button ∉ l → filter (λ btn, btn ≠ button) l = l.
Proof.
  induction l as [|x l IH]; intros Hin; [done|].
  rewrite filter_cons_True by set_solver. f_equal. apply IH. set_solver.
Qed.

Lemma filter_NoDup_remove_first (button : InputMouseButton) (l : list InputMouseButton) :
  NoDup l → filter (λ btn, btn ≠ button) l = remove_first button l.
Proof.
  induction 1 as [|x l Hx Hl IH]; [done|]. simpl.
  destruct (decide (x = button)) as [->|Hne].
  - rewrite filter_cons_False by (intros Hc; by apply Hc).
    by apply filter_absent.
  - rewrite filter_cons_True by done. by rewrite IH.
Qed.

Lemma Mouse_op_NoDup (p : Page) (op : MouseOp) (w : World) :
  NoDup (buttons w) →
  match op with OpDown b _ => b ∉ buttons w | OpUp _ _ => True end →
  NoDup (buttons (snd (Mouse_op p op w))).
Proof.
  intros Hnd Hfresh. destruct op as [b n|b n]; simpl.
  - rewrite Mouse_Down_buttons. destruct (fst _); [done|].
    apply NoDup_app. split; [done|]. split; [|apply NoDup_singleton].
    intros x Hx Hx'. apply list_elem_of_singleton in Hx'. by subst.
  - rewrite Mouse_Up_buttons. destruct (fst _); [done|].
    by apply NoDup_filter.
Qed.

Lemma Mouse_ops_cons (p : Page) (op : MouseOp) (ops : list MouseOp) (w : World) :
  snd (Mouse_ops p (op :: ops) w) = snd (Mouse_ops p ops (snd (Mouse_op p op w))).
Proof.
  simpl. unfold mbind, M_bind.
  destruct (Mouse_op p op w) as [e w1]. simpl.
  by destruct (Mouse_ops p ops w1).
Qed.

Lemma Mouse_ops_NoDup (p : Page) (ops : list MouseOp) (w : World) :
  NoDup (buttons w) → Mouse_no_repress p ops w →
  NoDup (buttons (snd (Mouse_ops p ops w))).
Proof.
  revert w. induction ops as [|op ops IH]; intros w Hnd Hfresh; [done|].
  destruct Hfresh as [Hop Hrest]. rewrite Mouse_ops_cons.
  apply IH; [|done]. by apply Mouse_op_NoDup.
Qed.

Lemma Mouse_no_repress_take (p : Page) (k : nat) (ops : list MouseOp) (w : World) :
  Mouse_no_repress p ops w → Mouse_no_repress p (take k ops) w.
Proof.
  revert k w. induction ops as [|op ops IH]; intros [|k] w Hf; try done.
  destruct Hf as [Hop Hrest]. split; [done|]. by apply IH.
Qed.

(** C6, amended: [Down] appends the button to the stack without looking for
    it there, and a successful [Up] removes every entry equal to the button,
    keeping the order of the others; on a stack without duplicates that is
    the removal of the first equal entry.  Through any sequence of calls in
    which no button is pressed while it is on the stack, a stack without
    duplicates stays so at every point. *)
Theorem Mouse_buttons_spec (p : Page) (w : World) :
  (∀ b n, fst (Mouse_Down p b n w) = None →
     buttons (snd (Mouse_Down p b n w)) = buttons w ++ [b]) ∧
  (∀ b n, fst (Mouse_Up p b n w) = None →
     buttons (snd (Mouse_Up p b n w)) = filter (λ btn, btn ≠ b) (buttons w)) ∧
  (∀ b, NoDup (buttons w) →
     filter (λ btn, btn ≠ b) (buttons w) = remove_first b (buttons w)) ∧
  (∀ ops k, NoDup (buttons w) → Mouse_no_repress p ops w →
     NoDup (buttons (snd (Mouse_ops p (take k ops) w)))).
Proof.
  repeat split.
  - intros b n Hok. by rewrite Mouse_Down_buttons, Hok.
  - intros b n Hok. by rewrite Mouse_Up_buttons, Hok.
  - intros b Hnd. by apply filter_NoDup_remove_first.
  - intros ops k Hnd Hf. apply Mouse_ops_NoDup; [done|].
    by apply Mouse_no_repress_take.
Qed.

(** C10: when the browser answers the dispatch call of [Mouse.Down] or
    [Mouse.Up] with an error, the call returns that error and the stack of
    buttons is the one it was; the request was sent all the same. *)
Theorem Mouse_call_error (p : Page) (button : InputMouseButton) (clickCount : Z)
    (w : World) (e : error) :
  (let sent := (SessionID p,
                ReqInputDispatchMouseEvent
                  (Mouse_event InputDispatchMouseEventTypeMousePressed
                     (buttons w ++ [button]) button clickCount
                     (Keyboard_modifiers w) (pos w))) in
   browser (trace w) sent = ReplyErr e →
   fst (Mouse_Down p button clickCount w) = Some e ∧
   buttons (snd (Mouse_Down p button clickCount w)) = buttons w ∧
   trace (snd (Mouse_Down p button clickCount w)) = trace w ++ [sent]) ∧
  (let sent := (SessionID p,
                ReqInputDispatchMouseEvent
                  (Mouse_event InputDispatchMouseEventTypeMouseReleased
                     (filter (λ btn, btn ≠ button) (buttons w)) button clickCount
                     (Keyboard_modifiers w) (pos w))) in
   browser (trace w) sent = ReplyErr e →
   fst (Mouse_Up p button clickCount w) = Some e ∧
   buttons (snd (Mouse_Up p button clickCount w)) = buttons w ∧
   trace (snd (Mouse_Up p button clickCount w)) = trace w ++ [sent]).
Proof.
  split; intros sent Herr.
  - subst sent. rewrite Mouse_Down_eq. cbv zeta. by rewrite Herr.
  - subst sent. rewrite Mouse_Up_eq. cbv zeta. by rewrite Herr.
Qed.

(** ** KeyActions *)

Lemma final_action_snoc (key : Key) (actions : list KeyAction) (a : KeyAction) :
  final_action key (actions ++ [a]) =
    if decide (KAKey a = key) then Some (KAType a) else final_action key actions.
Proof.
  unfold final_action. rewrite filter_app.
  destruct (decide (KAKey a = key)) as [Heq|Hne].
  - rewrite (filter_cons_True _ a []) by done.
    rewrite filter_nil, fmap_app. simpl. apply last_snoc.
  - rewrite (filter_cons_False _ a []) by done.
    by rewrite filter_nil, app_nil_r.
Qed.

Lemma final_action_app (key : Key) (l1 l2 : list KeyAction) :
  final_action key (l1 ++ l2) =
    match final_action key l2 with
    | Some t => Some t
    | None => final_action key l1
    end.
Proof.
  induction l2 as [|a l2 IH] using rev_ind.
  - by rewrite app_nil_r.
  - rewrite app_assoc, !final_action_snoc. by destruct (decide _).
Qed.

Lemma final_action_recorded (key : Key) (actions : list KeyAction) :
  key ∈ KAKey <$> actions → is_Some (final_action key actions).
Proof.
  induction actions as [|a actions IH] using rev_ind; intros Hin.
  - by apply elem_of_nil in Hin.
  - rewrite final_action_snoc. destruct (decide _) as [|Hne]; [by eexists|].
    apply IH. rewrite fmap_app in Hin. set_solver.
Qed.

Lemma final_action_absent (key : Key) (actions : list KeyAction) :
  key ∉ KAKey <$> actions → final_action key actions = None.
Proof.
  induction actions as [|a actions IH] using rev_ind; intros Hin; [done|].
  rewrite final_action_snoc. rewrite fmap_app in Hin.
  rewrite decide_False by set_solver. apply IH. set_solver.
Qed.

(** The map of [balance] holds, for each key, whether its last action is a
    press. *)
Lemma balance_h_lookup (key : Key) (actions : list KeyAction) :
  balance_h actions !! key =
    (λ t, bool_decide (t = KeyActionPress)) <$> final_action key actions.
Proof.
  unfold balance_h.
  induction actions as [|a actions IH] using rev_ind; [done|].
  rewrite foldl_snoc, final_action_snoc. unfold balance_record at 1.
  destruct (decide (KAKey a = key)) as [<-|Hne].
  - destruct (KAType a); by rewrite lookup_insert_eq.
  - destruct (KAType a); by rewrite lookup_insert_ne.
Qed.

Lemma KeyActions_balance_in_app (order : list (Key * bool)) (actions : list KeyAction) :
  KeyActions_balance_in order actions = actions ++ balance_releases order.
Proof.
  unfold KeyActions_balance_in, balance_releases. revert actions.
  induction order as [|[k b] order IH]; intros actions; simpl.
  - by rewrite app_nil_r.
  - rewrite IH. unfold balance_append. simpl. destruct b.
    + rewrite filter_cons_True by done. by rewrite <- app_assoc.
    + by rewrite filter_cons_False by done.
Qed.

Lemma balance_releases_elem (order : list (Key * bool)) (a : KeyAction) :
  a ∈ balance_releases order ↔ KAType a = KeyActionRelease ∧ (KAKey a, true) ∈ order.
Proof.
  unfold balance_releases. rewrite list_elem_of_fmap. split.
  - intros [[k b] [-> Hin]]. apply list_elem_of_filter in Hin as [Hb Hin].
    simpl in *. by subst.
  - intros [Ht Hin]. exists (KAKey a, true). split.
    + destruct a; simpl in *; by subst.
    + by apply list_elem_of_filter.
Qed.

Lemma balance_releases_NoDup (order : list (Key * bool)) :
  NoDup order.*1 → NoDup (balance_releases order).
Proof.
  intros Hnd. unfold balance_releases.
  assert (Hsub : NoDup (filter (λ entry : Key * bool, entry.2 = true) order).*1).
  { eapply sublist_NoDup; [exact Hnd|]. apply fmap_sublist, sublist_filter. }
  revert Hsub. generalize (filter (λ entry : Key * bool, entry.2 = true) order).
  clear. intros l. induction l as [|[k b] l IH]; simpl; intros Hnd.
  - constructor.
  - apply NoDup_cons in Hnd as [Hk Hl]. constructor; [|by apply IH].
    rewrite list_elem_of_fmap. intros [[k' b'] [Heq Hin]]. simpl in Heq.
    injection Heq as ->. apply Hk. apply list_elem_of_fmap. by exists (k', b').
Qed.

Lemma range_of_elem (h : gmap Key bool) (order : list (Key * bool)) (k : Key) (b : bool) :
  range_of h order → ((k, b) ∈ order ↔ h !! k = Some b).
Proof.
  unfold range_of. intros Hp. rewrite Hp. apply elem_of_map_to_list.
Qed.

Lemma range_of_NoDup (h : gmap Key bool) (order : list (Key * bool)) :
  range_of h order → NoDup order.*1.
Proof.
  unfold range_of. intros Hp. rewrite Hp. apply NoDup_fst_map_to_list.
Qed.

(** What [balance] appends: one release for each key whose last action is a
    press, and nothing else. *)
Lemma KeyActions_balance_releases (order : list (Key * bool)) (actions : list KeyAction) :
  range_of (balance_h actions) order →
  NoDup (balance_releases order) ∧
  ∀ a, a ∈ balance_releases order ↔
       KAType a = KeyActionRelease ∧ final_action (KAKey a) actions = Some KeyActionPress.
Proof.
  intros Hr. split.
  - apply balance_releases_NoDup. by eapply range_of_NoDup.
  - intros a. rewrite balance_releases_elem, (range_of_elem _ _ _ _ Hr), balance_h_lookup.
    destruct (final_action (KAKey a) actions) as [[]|]; simpl; naive_solver.
Qed.

Lemma range_of_map_to_list (h : gmap Key bool) : range_of h (map_to_list h).
Proof. unfold range_of. reflexivity. Qed.

Lemma final_action_uniform (key : Key) (t : KeyActionType) (l : list KeyAction) :
  (∀ a, a ∈ l → KAType a = t) →
  ∀ t', final_action key l = Some t' → t' = t.
Proof.
  induction l as [|a l IH] using rev_ind; intros Hall t'; [done|].
  rewrite final_action_snoc. destruct (decide _) as [_|_].
  - intros [= <-]. apply Hall. set_solver.
  - apply IH. intros a' Ha'. apply Hall. set_solver.
Qed.

Lemma pressed_after_final (key : Key) (s : gset Key) (actions : list KeyAction) :
  key ∈ foldl pressed_after s actions ↔
    match final_action key actions with
    | Some KeyActionPress => True
    | Some _ => False
    | None => key ∈ s
    end.
Proof.
  induction actions as [|a actions IH] using rev_ind; [done|].
  rewrite foldl_snoc, final_action_snoc. unfold pressed_after at 1.
  destruct (decide (KAKey a = key)) as [<-|Hne].
  - destruct (KAType a); set_solver.
  - rewrite <- IH. destruct (KAType a); set_solver.
Qed.

(** [Type] of one key is a press and, when the press met no error, a
    release. *)
Lemma Keyboard_Type_one (p : Page) (key : Key) (w : World) :
  Keyboard_Type p [key] w =
    match fst (Keyboard_Press p key w) with
    | Some e => (Some e, snd (Keyboard_Press p key w))
    | None => Keyboard_Release p key (snd (Keyboard_Press p key w))
    end.
Proof.
  unfold Keyboard_Type, mbind, M_bind.
  destruct (Keyboard_Press p key w) as [[e|] w1]; simpl; [done|].
  by destruct (Keyboard_Release p key w1) as [[e|] w2].
Qed.

Lemma KeyActions_perform_ok (p : Page) (a : KeyAction) (w : World) :
  fst (KeyActions_perform p a w) = None →
  pressed (snd (KeyActions_perform p a w)) = pressed_after (pressed w) a ∧
  trace (snd (KeyActions_perform p a w)) =
    trace w ++ (key_sent p <$> key_events (pressed w) [a]).
Proof.
  unfold KeyActions_perform, pressed_after. cbn [key_events].
  destruct (KAType a); intros Hok; rewrite ?app_nil_r.
  - by rewrite Keyboard_Press_eq.
  - destruct (decide (KAKey a ∈ pressed w)) as [Hin|Hout].
    + destruct (Keyboard_Release_sent p (KAKey a) w Hin) as [-> ->]. done.
    + rewrite Keyboard_Release_idle by done. simpl.
      rewrite app_nil_r. split; [set_solver|done].
  - rewrite Keyboard_Type_one in Hok |- *.
    destruct (fst (Keyboard_Press p (KAKey a) w)) eqn:Hpress; [done|].
    assert (Hin : KAKey a ∈ pressed (snd (Keyboard_Press p (KAKey a) w))).
    { rewrite Keyboard_Press_pressed. set_solver. }
    destruct (Keyboard_Release_sent p _ _ Hin) as [-> ->].
    rewrite Keyboard_Press_pressed. split; [set_solver|].
    rewrite Keyboard_Press_eq. simpl. by rewrite <- app_assoc.
Qed.

Lemma KeyActions_each_cons (p : Page) (a : KeyAction) (rest : list KeyAction) (w : World) :
  KeyActions_each p (a :: rest) w =
    match fst (KeyActions_perform p a w) with
    | Some e => (Some e, snd (KeyActions_perform p a w))
    | None => KeyActions_each p rest (snd (KeyActions_perform p a w))
    end.
Proof.
  simpl. unfold mbind, M_bind.
  by destruct (KeyActions_perform p a w) as [[e|] w1].
Qed.

Lemma key_events_cons (s : gset Key) (a : KeyAction) (rest : list KeyAction) :
  key_events s (a :: rest) = key_events s [a] ++ key_events (pressed_after s a) rest.
Proof. simpl. by rewrite app_nil_r. Qed.

(** A run of [Do]'s loop that met no error: the pressed set and the events
    sent. *)
Lemma KeyActions_each_ok (p : Page) (actions : list KeyAction) (w : World) :
  fst (KeyActions_each p actions w) = None →
  pressed (snd (KeyActions_each p actions w)) = foldl pressed_after (pressed w) actions ∧
  trace (snd (KeyActions_each p actions w)) =
    trace w ++ (key_sent p <$> key_events (pressed w) actions).
Proof.
  revert w. induction actions as [|a rest IH]; intros w.
  - intros _. simpl. by rewrite app_nil_r.
  - rewrite KeyActions_each_cons, key_events_cons.
    destruct (fst (KeyActions_perform p a w)) eqn:Hstep; [done|].
    intros Hrest. destruct (KeyActions_perform_ok p a w Hstep) as [Hp Ht].
    destruct (IH _ Hrest) as [-> ->].
    rewrite Hp, Ht, fmap_app, <- app_assoc. done.
Qed.

(** After the balanced actions, no key the list names is pressed. *)
Lemma balanced_pressed (actions : list KeyAction) (order : list (Key * bool)) (s : gset Key) :
  range_of (balance_h actions) order →
  foldl pressed_after s (actions ++ balance_releases order) =
    s ∖ list_to_set (KAKey <$> actions).
Proof.
  intros Hr. destruct (KeyActions_balance_releases order actions Hr) as [_ Hrel].
  apply set_eq. intros key.
  rewrite pressed_after_final, final_action_app, elem_of_difference, elem_of_list_to_set.
  pose proof (final_action_uniform key KeyActionRelease (balance_releases order)) as Huni.
  assert (Hall : ∀ a, a ∈ balance_releases order → KAType a = KeyActionRelease).
  { intros a Ha. by apply Hrel in Ha as [? _]. }
  specialize (Huni Hall).
  destruct (final_action key (balance_releases order)) as [t|] eqn:Hfin.
  - rewrite (Huni t eq_refl). split; [done|]. intros [_ Hout]. apply Hout.
    destruct (decide (key ∈ KAKey <$> actions)) as [|Hno]; [done|].
    assert (Hin : key ∈ KAKey <$> balance_releases order).
    { destruct (decide (key ∈ KAKey <$> balance_releases order)) as [|Hn]; [done|].
      apply final_action_absent in Hn. congruence. }
    apply list_elem_of_fmap in Hin as [a [-> Ha]]. apply Hrel in Ha as [_ Ha].
    apply final_action_absent in Hno. congruence.
  - destruct (final_action key actions) as [t|] eqn:Hact.
    + assert (Hin : key ∈ KAKey <$> actions).
      { destruct (decide (key ∈ KAKey <$> actions)) as [|Hn]; [done|].
        apply final_action_absent in Hn. congruence. }
      destruct t; try (split; [done | intros [_ Hout]; by apply Hout]).
      exfalso.
      assert (Hr' : mkKeyAction KeyActionRelease key ∈ balance_releases order)
        by (by apply Hrel).
      assert (Hk : key ∈ KAKey <$> balance_releases order).
      { apply list_elem_of_fmap. by exists (mkKeyAction KeyActionRelease key). }
      apply final_action_recorded in Hk as [t Hk]. congruence.
    + split; [|by intros [? _]]. intros Hs. split; [done|].
      intros Hin. apply final_action_recorded in Hin as [t Ht]. congruence.
Qed.

(** The scenario of the spec: press Ctrl, press Shift, press Ctrl. *)
Lemma balance_releases_ctrl_shift (ctrl shift : Key) (order : list (Key * bool)) :
  ctrl ≠ shift →
  range_of (balance_h [mkKeyAction KeyActionPress ctrl;
                       mkKeyAction KeyActionPress shift;
                       mkKeyAction KeyActionPress ctrl]) order →
  balance_releases order =
    [mkKeyAction KeyActionRelease ctrl; mkKeyAction KeyActionRelease shift] ∨
  balance_releases order =
    [mkKeyAction KeyActionRelease shift; mkKeyAction KeyActionRelease ctrl].
Proof.
  intros Hne Hr.
  destruct (KeyActions_balance_releases order _ Hr) as [Hnd Hrel].
  apply Permutation_length_2_inv. symmetry.
  apply NoDup_Permutation; [done| |].
  - apply NoDup_cons. split; [|apply NoDup_singleton].
    intros Hin%list_elem_of_singleton. congruence.
  - intros [t k]. rewrite Hrel. simpl. unfold final_action.
    rewrite !elem_of_cons, elem_of_nil.
    destruct (decide (k = ctrl)) as [->|Hc].
    + rewrite filter_cons_True by done. rewrite filter_cons_False by done.
      rewrite filter_cons_True by done. simpl. split.
      * intros [-> _]. by left.
      * intros [[= -> ]|[[= -> Heq]|[]]]; done.
    + rewrite filter_cons_False by (simpl; congruence).
      destruct (decide (k = shift)) as [->|Hs].
      * rewrite filter_cons_True by done.
        rewrite filter_cons_False by (simpl; congruence). simpl. split.
        -- intros [-> _]. right. by left.
        -- intros [[= -> Heq]|[[= -> ]|[]]]; done.
      * rewrite filter_cons_False by (simpl; congruence).
        rewrite filter_cons_False by (simpl; congruence). simpl. split.
        -- by intros [_ ?].
        -- intros [[= -> ->]|[[= -> ->]|[]]]; done.
Qed.

(** C9, amended: [balance] returns the scheduled actions followed by one
    release for each key whose last recorded action is a press, whatever
    order Go visits its map in; when [Do] returns nil (no call failed), no
    key the actions name is left in the pressed set.  For press Ctrl, press
    Shift, press Ctrl on a fresh keyboard, a [Do] that returns nil leaves the
    set empty and has sent one keyUp for each of Ctrl and Shift. *)
Theorem KeyActions_Do_balanced (p : Page) (actions : list KeyAction)
    (order : list (Key * bool)) :
  range_of (balance_h actions) order →
  (∃ releases,
     KeyActions_balance_in order actions = actions ++ releases ∧
     NoDup releases ∧
     ∀ a, a ∈ releases ↔
          KAType a = KeyActionRelease ∧
          final_action (KAKey a) actions = Some KeyActionPress) ∧
  (∀ w, fst (KeyActions_Do_in order p actions w) = None →
     pressed (snd (KeyActions_Do_in order p actions w)) =
       pressed w ∖ list_to_set (KAKey <$> actions)) ∧
  (∀ w ctrl shift,
     ctrl ≠ shift →
     actions = [mkKeyAction KeyActionPress ctrl;
                mkKeyAction KeyActionPress shift;
                mkKeyAction KeyActionPress ctrl] →
     fst (KeyActions_Do_in order p actions (Page_newKeyboard w)) = None →
     pressed (snd (KeyActions_Do_in order p actions (Page_newKeyboard w))) = ∅ ∧
     ∃ events,
       trace (snd (KeyActions_Do_in order p actions (Page_newKeyboard w))) =
         trace w ++ (key_sent p <$> events) ∧
       (keyUps events = [ctrl; shift] ∨ keyUps events = [shift; ctrl])).
Proof.
  intros Hr. split; [|split].
  - exists (balance_releases order). split; [apply KeyActions_balance_in_app|].
    by apply KeyActions_balance_releases.
  - intros w Hok. unfold KeyActions_Do_in in *.
    destruct (KeyActions_each_ok p _ w Hok) as [-> _].
    rewrite KeyActions_balance_in_app. by apply balanced_pressed.
  - intros w ctrl shift Hne -> Hok. unfold KeyActions_Do_in in *.
    destruct (KeyActions_each_ok p _ _ Hok) as [-> ->].
    rewrite KeyActions_balance_in_app. split.
    + rewrite balanced_pressed by done. unfold Page_newKeyboard. simpl. set_solver.
    + eexists. split; [reflexivity|].
      change (pressed (Page_newKeyboard w)) with (∅ : gset Key).
      destruct (balance_releases_ctrl_shift ctrl shift order Hne Hr) as [-> | ->];
        [left|right]; cbn [app key_events KAType KAKey pressed_after];
        repeat (rewrite decide_True by set_solver); reflexivity.
Qed.

(** ** Navigation *)

(** C4: [Navigate] sends [Page.stopLoading] and then [Page.navigate], to
    "about:blank" when the url is empty, whatever the browser answered to the
    first; the outcome is read off the answer to the second: a failed call
    returns its error, a non-empty error text returns a [NavigationError]
    with that text, both leaving the JS context slots as they were, and
    otherwise the slot of the root page is cleared and nil is returned. *)
Theorem Page_Navigate_spec (p : Page) (url : string) (w : World) :
  let target := if decide (url = "") then "about:blank" else url in
  let stop := (SessionID p, ReqPageStopLoading) in
  let nav := (SessionID p, ReqPageNavigate target) in
  let reply := browser (trace w ++ [stop]) nav in
  let out := Page_Navigate p url w in
  (url = "" → target = "about:blank") ∧
  trace (snd out) = trace w ++ [stop; nav] ∧
  (∀ e, reply = ReplyErr e → fst out = Some e ∧ jsCtx (snd out) = jsCtx w) ∧
  (∀ res, reply = ReplyOk res → PageNavigateResult_ErrorText res ≠ "" →
     fst out = Some (NavigationError (PageNavigateResult_ErrorText res)) ∧
     jsCtx (snd out) = jsCtx w) ∧
  (∀ res, reply = ReplyOk res → PageNavigateResult_ErrorText res = "" →
     fst out = None ∧
     jsCtx (snd out) = <[jsCtxID (Page_root p) := ""]> (jsCtx w) ∧
     jsCtx (snd out) !! jsCtxID (Page_root p) = Some "").
Proof.
  intros target stop nav reply out.
  assert (Hout : out =
    match reply with
    | ReplyErr e => (Some e, set_trace (trace w ++ [stop; nav]) w)
    | ReplyOk res =>
        if decide (PageNavigateResult_ErrorText res ≠ "")
        then (Some (NavigationError (PageNavigateResult_ErrorText res)),
              set_trace (trace w ++ [stop; nav]) w)
        else (None, set_jsCtx (<[jsCtxID (Page_root p) := ""]> (jsCtx w))
                      (set_trace (trace w ++ [stop; nav]) w))
    end).
  { subst out. unfold Page_Navigate, Page_StopLoading, Page_unsetJSCtxID, modify,
      mbind, M_bind, Call. simpl. fold target. fold stop. fold nav.
    change (browser (trace w ++ [stop]) nav) with reply.
    rewrite <- (app_assoc (trace w) [stop] [nav]). simpl.
    destruct reply as [res|e]; [|done].
    destruct (decide (PageNavigateResult_ErrorText res ≠ "")); reflexivity. }
  clearbody out reply. subst out.
  split; [intros ->; done|]. split.
  - destruct reply as [res|e]; [|done].
    by destruct (decide (PageNavigateResult_ErrorText res ≠ "")).
  - split; [|split].
    + by intros e ->.
    + intros res -> Htext. by rewrite decide_True.
    + intros res -> Htext. rewrite decide_False by (by intros Hn). simpl.
      split; [done|]. split; [done|]. apply lookup_insert_eq.
Qed.

(** ** Close *)

Lemma Page_Close_call_cleaned (fuel : nat) (p : Page) (w : World) :
  cleaned (snd (Page_Close_call fuel p w)) = cleaned w.
Proof.
  revert w. induction fuel as [|fuel IH]; intros w; [done|].
  simpl. unfold mbind, M_bind, Call.
  destruct (errors_Is_NotAttached _); [|done]. by rewrite IH.
Qed.

(** More fuel does not change the outcome of a loop that ended. *)
Lemma Page_Close_call_more (fuel fuel' : nat) (p : Page) (w w1 : World) (r : option error) :
  fuel ≤ fuel' →
  Page_Close_call fuel p w = (Some r, w1) →
  Page_Close_call fuel' p w = (Some r, w1).
Proof.
  revert fuel' w. induction fuel as [|fuel IH]; intros fuel' w Hle; [done|].
  destruct fuel' as [|fuel']; [lia|].
  simpl. unfold mbind, M_bind, Call.
  destruct (errors_Is_NotAttached _); [|done]. apply IH. lia.
Qed.

(** A dialog closed with [false] on the page's session ends the loop with
    [success] false, unless the page's target was destroyed before. *)
Lemma Page_Close_messages_denied (p : Page) (success : bool) (pre post : list Message) :
  (∀ msg, msg ∈ pre → MsgPayload msg ≠ EvTargetDestroyed (mkDestroyed (TargetID p))) →
  Page_Close_messages p success
    (pre ++ mkMessage (SessionID p) (EvJavascriptDialogClosed (mkDialogClosed false)) :: post)
  = false.
Proof.
  revert success. induction pre as [|msg pre IH]; intros success Hpre.
  - simpl. unfold Page_Close_msg. simpl. by rewrite bool_decide_true.
  - assert (Hmsg : MsgPayload msg ≠ EvTargetDestroyed (mkDestroyed (TargetID p)))
      by (apply Hpre; set_solver).
    assert (Hrest : ∀ m, m ∈ pre →
              MsgPayload m ≠ EvTargetDestroyed (mkDestroyed (TargetID p)))
      by (intros m Hm; apply Hpre; set_solver).
    simpl. unfold Page_Close_msg, Load_TargetDestroyed, Load_JavascriptDialogClosed.
    destruct msg as [sid [[tid]|d|[res]|e|e|e|m]]; simpl in *;
      try (rewrite andb_false_r; by apply IH).
    + rewrite bool_decide_false by congruence. by apply IH.
    + destruct (bool_decide (sid = SessionID p)); simpl; [|by apply IH].
      destruct res; simpl; [by apply IH|done].
Qed.

(** The destruction of the page's target ends the loop with [success] true,
    unless a dialog was closed with [false] on the page's session before. *)
Lemma Page_Close_messages_destroyed (p : Page) (sid : TargetSessionID)
    (pre post : list Message) :
  (∀ msg, msg ∈ pre →
     ¬ (MsgSessionID msg = SessionID p ∧
        MsgPayload msg = EvJavascriptDialogClosed (mkDialogClosed false))) →
  Page_Close_messages p true
    (pre ++ mkMessage sid (EvTargetDestroyed (mkDestroyed (TargetID p))) :: post)
  = true.
Proof.
  induction pre as [|msg pre IH]; intros Hpre.
  - simpl. unfold Page_Close_msg. simpl. by rewrite bool_decide_true.
  - assert (Hmsg : ¬ (MsgSessionID msg = SessionID p ∧
                      MsgPayload msg = EvJavascriptDialogClosed (mkDialogClosed false)))
      by (apply Hpre; set_solver).
    assert (Hrest : ∀ m, m ∈ pre →
              ¬ (MsgSessionID m = SessionID p ∧
                 MsgPayload m = EvJavascriptDialogClosed (mkDialogClosed false)))
      by (intros m Hm; apply Hpre; set_solver).
    simpl. unfold Page_Close_msg, Load_TargetDestroyed, Load_JavascriptDialogClosed.
    destruct msg as [sid' [[tid]|d|[res]|e|e|e|m]]; simpl in *;
      try (rewrite andb_false_r; by apply IH).
    + by destruct (bool_decide (tid = TargetID p)); [|apply IH].
    + destruct (bool_decide_reflect (sid' = SessionID p)) as [Heq|Hne]; simpl;
        [|by apply IH].
      destruct res; simpl; [by apply IH|]. exfalso. by apply Hmsg.
Qed.

(** C2: once [Page.close] went through (the retry loop ended without error
    within [fuel] calls; more fuel changes nothing), a dialog closed with
    result false on the page's own session, before any destruction of the
    page's target, makes [Close] return [PageCloseCanceledError] without
    running the cleanup; the destruction of the page's target, before any
    such dialog event, makes it run the cleanup and return nil. *)
Theorem Page_Close_spec (fuel fuel' : nat) (p : Page) (pre post : list Message)
    (w w1 : World) :
  Page_Close_call fuel p w = (Some None, w1) →
  fuel ≤ fuel' →
  ((∀ msg, msg ∈ pre → MsgPayload msg ≠ EvTargetDestroyed (mkDestroyed (TargetID p))) →
   let denied := mkMessage (SessionID p) (EvJavascriptDialogClosed (mkDialogClosed false)) in
   fst (Page_Close fuel' p (pre ++ denied :: post) w) = Some (Some PageCloseCanceledError) ∧
   cleaned (snd (Page_Close fuel' p (pre ++ denied :: post) w)) = cleaned w) ∧
  ((∀ msg, msg ∈ pre →
      ¬ (MsgSessionID msg = SessionID p ∧
         MsgPayload msg = EvJavascriptDialogClosed (mkDialogClosed false))) →
   ∀ sid,
     let destroyed := mkMessage sid (EvTargetDestroyed (mkDestroyed (TargetID p))) in
     fst (Page_Close fuel' p (pre ++ destroyed :: post) w) = Some None ∧
     cleaned (snd (Page_Close fuel' p (pre ++ destroyed :: post) w)) =
       cleaned w ++ [TargetID p]).
Proof.
  intros Hcall0 Hle.
  pose proof (Page_Close_call_more fuel fuel' p w w1 None Hle Hcall0) as Hcall.
  assert (Hc : cleaned w1 = cleaned w).
  { rewrite <- (Page_Close_call_cleaned fuel' p w). by rewrite Hcall. }
  split.
  - intros Hpre denied. unfold Page_Close, mbind, M_bind. rewrite Hcall.
    subst denied. by rewrite Page_Close_messages_denied.
  - intros Hpre sid destroyed. unfold Page_Close, mbind, M_bind. rewrite Hcall.
    subst destroyed. rewrite Page_Close_messages_destroyed by done.
    simpl. by rewrite Hc.
Qed.

(** ** Screenshot *)

(** C8: in a full-page [Screenshot], once the layout metrics were read and
    the override to the content size was applied, the last call before
    returning clears the device-metrics override when none was recorded, and
    sets the recorded one again otherwise, whether the capture in between
    succeeded or failed; the result is that of the capture. *)
Theorem Page_Screenshot_restores (p : Page) (req : option PageCaptureScreenshot)
    (w : World) (size : DOMRect) (r2 : Result) :
  let sid := SessionID p in
  let t1 := trace w ++ [(sid, ReqPageGetLayoutMetrics)] in
  let prior := states t1 sid in
  let view := {| Width := int_of_float64 (RectWidth size);
                 Height := int_of_float64 (RectHeight size);
                 Mobile := Mobile (default EmulationSetDeviceMetricsOverride_zero prior) |} in
  let override := (sid, ReqEmulationSetDeviceMetricsOverride view) in
  let capture := (sid, ReqPageCaptureScreenshot (default (mkCapture "") req)) in
  let recover := (sid, match prior with
                       | None => ReqEmulationClearDeviceMetricsOverride
                       | Some oldView => ReqEmulationSetDeviceMetricsOverride oldView
                       end) in
  browser (trace w) (sid, ReqPageGetLayoutMetrics)
    = ReplyOk (ResPageGetLayoutMetrics (Some size)) →
  browser t1 override = ReplyOk r2 →
  trace (snd (Page_Screenshot p true req w)) = t1 ++ [override; capture; recover] ∧
  last (trace (snd (Page_Screenshot p true req w))) = Some recover ∧
  fst (Page_Screenshot p true req w) =
    match browser (t1 ++ [override]) capture with
    | ReplyErr e => inr e
    | ReplyOk res => inl (PageCaptureScreenshotResult_Data res)
    end.
Proof.
  intros sid t1 prior view override capture recover Hmetrics Hset.
  assert (Hrun : Page_Screenshot p true req w =
    (match browser (t1 ++ [override]) capture with
     | ReplyErr e => inr e
     | ReplyOk res => inl (PageCaptureScreenshotResult_Data res)
     end,
     set_trace (t1 ++ [override; capture; recover]) w)).
  { unfold Page_Screenshot, Page_LoadState, Page_SetViewport, Page_Screenshot_capture,
      Page_Screenshot_recover, mbind, M_bind, get, Call. simpl.
    fold sid. rewrite Hmetrics. simpl. fold t1. fold prior.
    subst recover override view. destruct prior as [oldView|]; simpl in Hset |- *.
    - rewrite Hset. simpl. fold capture.
      destruct (browser _ capture); simpl; unfold set_trace; simpl;
        by rewrite <- !app_assoc.
    - rewrite Hset. simpl. fold capture.
      destruct (browser _ capture); simpl; unfold set_trace; simpl;
        by rewrite <- !app_assoc. }
  rewrite Hrun. simpl. split; [done|]. split; [|done].
  change (t1 ++ [override; capture; recover])
    with (t1 ++ ([override; capture] ++ [recover])).
  rewrite app_assoc. apply last_snoc.
Qed.

(** ** The event dispatcher *)

Lemma own_messages_cons (p : Page) (msg : Message) (event : list Message) :
  own_messages p (msg :: event) =
    if bool_decide (MsgSessionID msg ≠ SessionID p)
    then own_messages p event else msg :: own_messages p event.
Proof.
  unfold own_messages.
  destruct (bool_decide_reflect (MsgSessionID msg ≠ SessionID p)) as [Hne|Heq].
  - by rewrite filter_cons_False.
  - rewrite filter_cons_True; [done|].
    by destruct (decide (MsgSessionID msg = SessionID p)).
Qed.

(** Until a detach event for the session arrives, the dispatcher of a page
    with a target id publishes the session's messages and goes on. *)
Lemma Page_initEvents_app (p : Page) (pre rest : list Message) :
  TargetID p ≠ "" →
  (∀ msg, msg ∈ pre → MsgPayload msg ≠ EvDetachedFromTarget (mkDetached (SessionID p))) →
  Page_initEvents p (pre ++ rest) =
    (own_messages p pre ++ fst (Page_initEvents p rest), snd (Page_initEvents p rest)).
Proof.
  intros Htarget. induction pre as [|msg pre IH]; intros Hpre.
  - simpl. by destruct (Page_initEvents p rest).
  - assert (Hmsg : MsgPayload msg ≠ EvDetachedFromTarget (mkDetached (SessionID p)))
      by (apply Hpre; set_solver).
    rewrite own_messages_cons. cbn [app Page_initEvents].
    rewrite IH by (intros m Hm; apply Hpre; set_solver).
    unfold Load_DetachedFromTarget, LoadByValue_TargetDestroyed, Load_TargetDestroyed.
    rewrite (bool_decide_false ("" = TargetID p)) by congruence.
    destruct msg as [sid [e|[sd]|e|e|e|e|m]]; simpl in *;
      try (by destruct (bool_decide (sid ≠ SessionID p))).
    rewrite (bool_decide_false (sd = SessionID p)) by congruence. simpl.
    by destruct (bool_decide (sid ≠ SessionID p)).
Qed.

(** C1: a [DetachedFromTarget] event for the page's session makes the
    dispatcher call [sessionCancel]; but a page whose target id is not empty
    is never cancelled by a [TargetDestroyed] event, not even one for its own
    target: without a detach event for its session the dispatcher runs
    through all the messages, publishing those of the session. *)
Theorem Page_initEvents_destroyed (p : Page) (event post : list Message) :
  TargetID p ≠ "" →
  (∀ msg, msg ∈ event →
     MsgPayload msg ≠ EvDetachedFromTarget (mkDetached (SessionID p))) →
  (∀ sid,
     Page_initEvents p
       (event ++ mkMessage sid (EvDetachedFromTarget (mkDetached (SessionID p))) :: post)
     = (own_messages p event, true)) ∧
  Page_initEvents p event = (own_messages p event, false) ∧
  (∀ sid,
     Page_initEvents p [mkMessage sid (EvTargetDestroyed (mkDestroyed (TargetID p)))]
     = (own_messages p [mkMessage sid (EvTargetDestroyed (mkDestroyed (TargetID p)))],
        false)).
Proof.
  intros Htarget Hevent. split; [|split].
  - intros sid. rewrite Page_initEvents_app by done.
    cbn [Page_initEvents]. unfold Load_DetachedFromTarget. simpl.
    rewrite bool_decide_true by done. simpl. by rewrite app_nil_r.
  - rewrite <- (app_nil_r event) at 1. rewrite Page_initEvents_app by done.
    simpl. by rewrite app_nil_r.
  - intros sid.
    rewrite <- (app_nil_r [mkMessage sid _]) at 1.
    rewrite Page_initEvents_app; [simpl; by rewrite app_nil_r|done|].
    intros msg Hin%list_elem_of_singleton. by subst.
Qed.

(** ** Request idle *)

Lemma excluded_type (excludeTypes : list NetworkResourceType) (t : NetworkResourceType) :
  existsb (λ t', bool_decide (t = t')) excludeTypes = false ↔ t ∉ excludeTypes.
Proof.
  induction excludeTypes as [|x l IH]; simpl.
  - split; [intros _; apply not_elem_of_nil | done].
  - rewrite orb_false_iff, IH, not_elem_of_cons, bool_decide_eq_false. done.
Qed.

(** The counter follows the size of the wait list. *)
Lemma WaitRequestIdle_event_count (includes excludes : list string)
    (excludeTypes : list NetworkResourceType) (ev : Payload) (st : RequestIdle) :
  idleCounter st = Z.of_nat (size (waitList st)) →
  idleCounter (WaitRequestIdle_event includes excludes excludeTypes ev st)
    = Z.of_nat (size (waitList (WaitRequestIdle_event includes excludes excludeTypes ev st))).
Proof.
  intros Hinv.
  assert (Hdone : ∀ id, idleCounter (WaitRequestIdle_checkDone id st)
                        = Z.of_nat (size (waitList (WaitRequestIdle_checkDone id st)))).
  { intros id. unfold WaitRequestIdle_checkDone.
    destruct (waitList st !! id) as [u|] eqn:Hid; [|done]. simpl.
    rewrite Hinv. rewrite <- (insert_delete_id (waitList st) id u Hid) at 1.
    rewrite map_size_insert_None by apply lookup_delete_eq. lia. }
  destruct ev as [e|e|e|sent|e|e|m]; simpl; try done.
  unfold WaitRequestIdle_onSent.
  destruct (existsb _ _); [done|]. destruct (genRegMatcher _ _ _); [|done].
  destruct (waitList st !! SentRequestID sent) eqn:Hid; [done|]. simpl.
  rewrite map_size_insert_None by done. lia.
Qed.

Lemma WaitRequestIdle_handlers_count (p : Page) (includes excludes : list string)
    (excludeTypes : option (list NetworkResourceType)) (messages : list Message) :
  idleCounter (WaitRequestIdle_handlers p includes excludes excludeTypes messages)
    = Z.of_nat (size (waitList
                        (WaitRequestIdle_handlers p includes excludes excludeTypes messages))).
Proof.
  unfold WaitRequestIdle_handlers.
  induction messages as [|msg messages IH] using rev_ind; [done|].
  rewrite foldl_snoc. destruct (bool_decide _); [|done].
  by apply WaitRequestIdle_event_count.
Qed.

(** C3: a [NetworkRequestWillBeSent] whose type is not excluded and whose
    URL matches is added to the wait list, with the counter raised by one,
    only when its request id is not there; a further event with the same id
    changes nothing.  [NetworkLoadingFinished] and [NetworkLoadingFailed] for
    a listed id remove it and lower the counter by one, and a further one for
    that id changes nothing.  A request, its redirect and its end leave the
    list empty, having counted one request. *)
Theorem WaitRequestIdle_counts_once (includes excludes : list string)
    (excludeTypes : list NetworkResourceType) (st : RequestIdle) :
  (∀ sent,
     SentType sent ∉ excludeTypes →
     genRegMatcher includes excludes (SentURL sent) = true →
     let st' := WaitRequestIdle_event includes excludes excludeTypes
                  (EvRequestWillBeSent sent) st in
     (waitList st !! SentRequestID sent = None →
        waitList st' = <[SentRequestID sent := SentURL sent]> (waitList st) ∧
        idleCounter st' = (idleCounter st + 1)%Z) ∧
     (is_Some (waitList st !! SentRequestID sent) → st' = st) ∧
     (∀ redirect,
        SentRequestID redirect = SentRequestID sent →
        WaitRequestIdle_event includes excludes excludeTypes
          (EvRequestWillBeSent redirect) st' = st')) ∧
  (∀ id,
     is_Some (waitList st !! id) →
     let st' := WaitRequestIdle_checkDone id st in
     WaitRequestIdle_event includes excludes excludeTypes
       (EvLoadingFinished (mkFinished id)) st = st' ∧
     WaitRequestIdle_event includes excludes excludeTypes
       (EvLoadingFailed (mkFailed id)) st = st' ∧
     waitList st' = delete id (waitList st) ∧
     idleCounter st' = (idleCounter st - 1)%Z ∧
     WaitRequestIdle_checkDone id st' = st') ∧
  (∀ id a b t,
     t ∉ excludeTypes →
     genRegMatcher includes excludes a = true →
     st = mkRequestIdle ∅ 0 →
     let st1 := WaitRequestIdle_event includes excludes excludeTypes
                  (EvRequestWillBeSent (mkWillBeSent id a t)) st in
     let st2 := WaitRequestIdle_event includes excludes excludeTypes
                  (EvRequestWillBeSent (mkWillBeSent id b t)) st1 in
     let st3 := WaitRequestIdle_event includes excludes excludeTypes
                  (EvLoadingFinished (mkFinished id)) st2 in
     st2 = mkRequestIdle {[id := a]} 1 ∧ st3 = mkRequestIdle ∅ 0).
Proof.
  assert (Hsent : ∀ sent s,
            SentType sent ∉ excludeTypes →
            WaitRequestIdle_onSent includes excludes excludeTypes sent s =
              if genRegMatcher includes excludes (SentURL sent) then
                match waitList s !! SentRequestID sent with
                | Some _ => s
                | None => mkRequestIdle (<[SentRequestID sent := SentURL sent]> (waitList s))
                            (idleCounter s + 1)
                end
              else s).
  { intros sent s Ht. unfold WaitRequestIdle_onSent.
    apply excluded_type in Ht. by rewrite Ht. }
  split; [|split].
  - intros sent Ht Hm st'. subst st'. simpl. rewrite Hsent, Hm by done.
    split; [|split].
    + by intros ->.
    + by intros [u ->].
    + intros redirect Hid.
      assert (Hin : is_Some
                (match waitList st !! SentRequestID sent with
                 | Some _ => st
                 | None => mkRequestIdle
                             (<[SentRequestID sent := SentURL sent]> (waitList st))
                             (idleCounter st + 1)
                 end.(waitList) !! SentRequestID redirect)).
      { rewrite Hid. destruct (waitList st !! SentRequestID sent) eqn:Hl.
        - by rewrite Hl.
        - simpl. rewrite lookup_insert_eq. by eexists. }
      destruct Hin as [u Hu]. unfold WaitRequestIdle_onSent.
      destruct (existsb _ _); [done|]. destruct (genRegMatcher _ _ (SentURL redirect)); [|done].
      by rewrite Hu.
  - intros id [u Hu] st'. subst st'. simpl. unfold WaitRequestIdle_checkDone.
    rewrite Hu. simpl. rewrite lookup_delete_eq. done.
  - intros id a b t Ht Hm -> st1 st2 st3.
    assert (H1 : st1 = mkRequestIdle {[id := a]} 1).
    { subst st1. simpl. rewrite Hsent by done. simpl. rewrite Hm.
      rewrite lookup_empty. by rewrite insert_empty. }
    assert (H2 : st2 = mkRequestIdle {[id := a]} 1).
    { subst st2. rewrite H1. simpl. unfold WaitRequestIdle_onSent. simpl.
      destruct (existsb _ _); [done|]. destruct (genRegMatcher _ _ b); [|done].
      by rewrite lookup_singleton_eq. }
    split; [done|]. subst st3. rewrite H2. simpl.
    unfold WaitRequestIdle_checkDone. simpl. rewrite lookup_singleton_eq.
    unfold IdleCounter_Done. simpl. by rewrite delete_singleton_eq.
Qed.

(** ** Stable *)

Lemma WaitStable_finish_done (eLoad eDOM : option error) (finished : list StableTask)
    (e : option error) :
  foldl (WaitStable_finish eLoad eDOM) (mkStableErr true e) finished = mkStableErr true e.
Proof.
  induction finished as [|t finished IH]; [done|].
  destruct t; simpl; apply IH.
Qed.

Lemma WaitStable_finish_idle (eLoad eDOM : option error) (pre rest : list StableTask)
    (s : StableErr) :
  (∀ t, t ∈ pre → t = TaskWaitRequestIdle) →
  foldl (WaitStable_finish eLoad eDOM) s (pre ++ rest) =
    foldl (WaitStable_finish eLoad eDOM) s rest.
Proof.
  induction pre as [|t pre IH]; intros Hpre; [done|].
  assert (t = TaskWaitRequestIdle) as -> by (apply Hpre; set_solver).
  simpl. apply IH. intros t Ht. apply Hpre. set_solver.
Qed.

(** C7: [WaitStable] returns what the first to finish of [WaitLoad] and
    [WaitDOMStable] returned, nil included: when [WaitLoad] finishes first
    without error and [WaitDOMStable] then fails, the error is dropped and
    [WaitStable] returns nil. *)
Theorem Page_WaitStable_first_finished (eLoad eDOM : option error)
    (pre post : list StableTask) :
  (∀ t, t ∈ pre → t = TaskWaitRequestIdle) →
  Page_WaitStable (pre ++ TaskWaitLoad :: post) eLoad eDOM = eLoad ∧
  Page_WaitStable (pre ++ TaskWaitDOMStable :: post) eLoad eDOM = eDOM ∧
  (∀ e, all_complete [TaskWaitLoad; TaskWaitRequestIdle; TaskWaitDOMStable] ∧
        Page_WaitStable [TaskWaitLoad; TaskWaitRequestIdle; TaskWaitDOMStable]
          None (Some e) = None).
Proof.
  intros Hpre. unfold Page_WaitStable. split; [|split].
  - rewrite WaitStable_finish_idle by done. simpl. unfold setErr_Do. simpl.
    by rewrite WaitStable_finish_done.
  - rewrite WaitStable_finish_idle by done. simpl. unfold setErr_Do. simpl.
    by rewrite WaitStable_finish_done.
  - intros e. split; [unfold all_complete; reflexivity | done].
Qed.

(** ** Vocabulary of the further properties *)

(** A [NetworkRequestWillBeSent] the callback takes up: its type is not
    excluded and its URL matches. *)
Definition request_accepted (includes excludes : list string)
    (excludeTypes : list NetworkResourceType) (sent : NetworkRequestWillBeSent) : bool :=
  negb (existsb (λ t, bool_decide (SentType sent = t)) excludeTypes)
  && genRegMatcher includes excludes (SentURL sent).

(** Whether an event is about the request [id]. *)
Definition request_event (includes excludes : list string)
    (excludeTypes : list NetworkResourceType) (id : NetworkRequestID) (ev : Payload) : bool :=
  match ev with
  | EvRequestWillBeSent sent =>
      bool_decide (SentRequestID sent = id)
      && request_accepted includes excludes excludeTypes sent
  | EvLoadingFinished e => bool_decide (FinishedRequestID e = id)
  | EvLoadingFailed e => bool_decide (FailedRequestID e = id)
  | _ => false
  end.

(** The request [id] is in flight after [events]: the last event about it
    is its being sent. *)
Definition in_flight (includes excludes : list string)
    (excludeTypes : list NetworkResourceType) (id : NetworkRequestID)
    (events : list Payload) : Prop :=
  match last (filter (λ ev, request_event includes excludes excludeTypes id ev = true)
                events) with
  | Some (EvRequestWillBeSent _) => True
  | _ => False
  end.

(** The names and values a [dict] of pairs lists. *)
Definition dict_of (pairs : list (string * string)) : list string :=
  pairs ≫= λ pair, [pair.1; pair.2].

(** * Further properties *)

(** ** Keyboard *)

Lemma modifiers_of_testbit (keys : list Key) (n : Z) :
  Z.testbit (modifiers_of keys) n = true ↔
  ∃ key, key ∈ keys ∧ Z.testbit (Modifier key) n = true.
Proof.
  induction keys as [|k keys IH].
  - unfold modifiers_of. simpl. rewrite Z.bits_0. split; [done|].
    intros (key & Hin & _). by apply elem_of_nil in Hin.
  - rewrite modifiers_of_cons, Z.lor_spec, orb_true_iff, IH. split.
    + intros [Hk|(key & Hin & Hbit)].
      * exists k. split; [by left|done].
      * exists key. split; [by right|done].
    + intros (key & Hin & Hbit). apply elem_of_cons in Hin as [->|Hin].
      * by left.
      * right. by exists key.
Qed.

(** X1: a bit is set in the keyboard's modifier mask exactly when a pressed
    key carries it. *)
Theorem Keyboard_modifiers_bits (w : World) (n : Z) :
  Z.testbit (Keyboard_modifiers w) n = true ↔
  ∃ key, key ∈ pressed w ∧ Z.testbit (Modifier key) n = true.
Proof.
  unfold Keyboard_modifiers. rewrite modifiers_of_testbit.
  split; intros (key & Hin & Hbit); exists key; split; try done;
    by apply elem_of_elements.
Qed.

Lemma modifiers_of_insert (key : Key) (s : gset Key) :
  key ∉ s →
  modifiers_of (elements ({[key]} ∪ s)) = Z.lor (Modifier key) (modifiers_of (elements s)).
Proof.
  intros Hout. rewrite (modifiers_of_perm _ (key :: elements s)).
  - apply modifiers_of_cons.
  - by apply elements_union_singleton.
Qed.

(** X2: pressing a key that is not pressed and releasing it again leaves the
    pressed set as it was, whatever the browser answered to the two events:
    a keyDown whose mask adds the key's bit to the mask before, and a keyUp
    with the mask before. *)
Theorem Keyboard_Press_Release (p : Page) (key : Key) (w : World) :
  key ∉ pressed w →
  let w1 := snd (Keyboard_Press p key w) in
  let w2 := snd (Keyboard_Release p key w1) in
  pressed w2 = pressed w ∧
  trace w2 = trace w ++
    [key_sent p (Key_Encode InputDispatchKeyEventTypeKeyDown key
                   (Z.lor (Modifier key) (Keyboard_modifiers w)));
     key_sent p (Key_Encode InputDispatchKeyEventTypeKeyUp key (Keyboard_modifiers w))].
Proof.
  intros Hout w1 w2.
  assert (H1 : pressed w1 = {[key]} ∪ pressed w) by apply Keyboard_Press_pressed.
  assert (Ht1 : trace w1 = trace w ++
            [key_sent p (Key_Encode InputDispatchKeyEventTypeKeyDown key
                           (Z.lor (Modifier key) (Keyboard_modifiers w)))]).
  { subst w1. rewrite Keyboard_Press_eq. simpl. unfold Keyboard_modifiers. simpl.
    by rewrite modifiers_of_insert. }
  assert (Hin : key ∈ pressed w1) by (rewrite H1; set_solver).
  destruct (Keyboard_Release_sent p key w1 Hin) as [H2 Ht2]. fold w2 in H2, Ht2.
  assert (Hs : pressed w1 ∖ {[key]} = pressed w) by (rewrite H1; set_solver).
  rewrite Hs in H2, Ht2. clearbody w1 w2.
  split; [done|]. rewrite Ht2, Ht1, <- app_assoc. done.
Qed.

(** X3: pressing a key that is already pressed sends one more keyDown, with
    the mask unchanged, and leaves the pressed set as it was; one release
    then takes the key out, however often it was pressed. *)
Theorem Keyboard_Press_again (p : Page) (key : Key) (w : World) :
  key ∈ pressed w →
  let w1 := snd (Keyboard_Press p key w) in
  pressed w1 = pressed w ∧
  trace w1 = trace w ++
    [key_sent p (Key_Encode InputDispatchKeyEventTypeKeyDown key (Keyboard_modifiers w))] ∧
  key ∉ pressed (snd (Keyboard_Release p key w1)).
Proof.
  intros Hin w1.
  assert (Hs : {[key]} ∪ pressed w = pressed w) by set_solver.
  assert (H1 : pressed w1 = pressed w).
  { subst w1. by rewrite Keyboard_Press_pressed. }
  split; [done|]. split.
  - subst w1. rewrite Keyboard_Press_eq. simpl. unfold Keyboard_modifiers. simpl.
    by rewrite Hs.
  - assert (Hin1 : key ∈ pressed w1) by (by rewrite H1).
    destruct (Keyboard_Release_sent p key w1 Hin1) as [-> _]. set_solver.
Qed.

Lemma KeyActions_Type_app (keys : list Key) (Actions : list KeyAction) :
  KeyActions_Type keys Actions = Actions ++ (mkKeyAction KeyActionTypeKey <$> keys).
Proof.
  unfold KeyActions_Type. revert Actions.
  induction keys as [|k keys IH]; intros Actions; simpl.
  - by rewrite app_nil_r.
  - by rewrite IH, <- app_assoc.
Qed.

Lemma KeyActions_each_Type (p : Page) (keys : list Key) (w : World) :
  KeyActions_each p (mkKeyAction KeyActionTypeKey <$> keys) w = Keyboard_Type p keys w.
Proof.
  revert w. induction keys as [|k keys IH]; intros w; [done|].
  rewrite fmap_cons, KeyActions_each_cons.
  unfold KeyActions_perform. cbn [KAType KAKey]. rewrite Keyboard_Type_one.
  cbn [Keyboard_Type]. unfold mbind, M_bind.
  destruct (Keyboard_Press p k w) as [[e|] w1]; simpl; [done|].
  destruct (Keyboard_Release p k w1) as [[e|] w2]; simpl; [done|].
  apply IH.
Qed.

(** The last action of a key is not a press once [balance] has run. *)
Lemma balanced_final (key : Key) (actions : list KeyAction) (order : list (Key * bool)) :
  range_of (balance_h actions) order →
  final_action key (actions ++ balance_releases order) ≠ Some KeyActionPress.
Proof.
  intros Hr. destruct (KeyActions_balance_releases order actions Hr) as [_ Hrel].
  rewrite final_action_app.
  destruct (final_action key (balance_releases order)) as [t|] eqn:Hfin.
  - assert (t = KeyActionRelease) as ->; [|done].
    eapply final_action_uniform; [|exact Hfin].
    intros a Ha. by apply Hrel in Ha as [? _].
  - intros Hpress.
    assert (Hin : mkKeyAction KeyActionRelease key ∈ balance_releases order)
      by (by apply Hrel).
    assert (Hk : key ∈ KAKey <$> balance_releases order).
    { apply list_elem_of_fmap. by exists (mkKeyAction KeyActionRelease key). }
    apply final_action_recorded in Hk as [t Hk]. congruence.
Qed.

Lemma balance_releases_none (actions : list KeyAction) (order : list (Key * bool)) :
  range_of (balance_h actions) order →
  (∀ key, final_action key actions ≠ Some KeyActionPress) →
  balance_releases order = [].
Proof.
  intros Hr Hnone. destruct (KeyActions_balance_releases order actions Hr) as [_ Hrel].
  apply elem_of_nil_inv. intros a Ha. apply Hrel in Ha as [_ Ha]. by apply (Hnone (KAKey a)).
Qed.

(** X4: [balance] adds nothing to actions in which no key ends on a press,
    and so adds nothing to its own result: balancing twice is balancing
    once, whatever orders the two runs visit their maps in. *)
Theorem KeyActions_balance_idempotent (actions : list KeyAction)
    (order order' : list (Key * bool)) :
  range_of (balance_h actions) order →
  range_of (balance_h (KeyActions_balance_in order actions)) order' →
  ((∀ key, final_action key actions ≠ Some KeyActionPress) →
   KeyActions_balance_in order actions = actions) ∧
  KeyActions_balance_in order' (KeyActions_balance_in order actions)
    = KeyActions_balance_in order actions.
Proof.
  intros Hr Hr'. split.
  - intros Hnone. rewrite KeyActions_balance_in_app.
    rewrite (balance_releases_none actions order) by done. apply app_nil_r.
  - rewrite (KeyActions_balance_in_app order') .
    rewrite (balance_releases_none _ order' Hr'); [apply app_nil_r|].
    intros key. rewrite KeyActions_balance_in_app. by apply balanced_final.
Qed.

(** X5: scheduling [Type] of some keys on an empty [KeyActions] and running
    [Do] is [Keyboard.Type] of these keys: [balance] has nothing to add. *)
Theorem KeyActions_Do_Type (p : Page) (keys : list Key) (order : list (Key * bool))
    (w : World) :
  range_of (balance_h (KeyActions_Type keys [])) order →
  KeyActions_Do_in order p (KeyActions_Type keys []) w = Keyboard_Type p keys w.
Proof.
  intros Hr. unfold KeyActions_Do_in. rewrite KeyActions_balance_in_app.
  rewrite (balance_releases_none _ order Hr).
  - rewrite app_nil_r, KeyActions_Type_app. apply KeyActions_each_Type.
  - intros key Hfin. rewrite KeyActions_Type_app in Hfin. simpl in Hfin.
    assert (KeyActionPress = KeyActionTypeKey); [|done].
    eapply final_action_uniform; [|exact Hfin].
    intros a Ha. apply list_elem_of_fmap in Ha as (k & -> & _). done.
Qed.

Lemma key_events_Type (s : gset Key) (keys : list Key) :
  (λ e, (KeyType e, KeyOf e)) <$> key_events s (mkKeyAction KeyActionTypeKey <$> keys)
  = keys ≫= λ key, [(InputDispatchKeyEventTypeKeyDown, key);
                    (InputDispatchKeyEventTypeKeyUp, key)].
Proof.
  revert s. induction keys as [|k keys IH]; intros s; [done|].
  rewrite fmap_cons, key_events_cons, fmap_app, IH. done.
Qed.

Lemma pressed_after_Type (s : gset Key) (keys : list Key) :
  foldl pressed_after s (mkKeyAction KeyActionTypeKey <$> keys) = s ∖ list_to_set keys.
Proof.
  revert s. induction keys as [|k keys IH]; intros s; simpl.
  - set_solver.
  - rewrite IH. unfold pressed_after. simpl. set_solver.
Qed.

(** X6: a [Keyboard.Type] that returns nil has sent, for each key in turn, a
    keyDown and then a keyUp, and leaves none of the keys pressed, also those
    that were pressed before. *)
Theorem Keyboard_Type_ok (p : Page) (keys : list Key) (w : World) :
  fst (Keyboard_Type p keys w) = None →
  pressed (snd (Keyboard_Type p keys w)) = pressed w ∖ list_to_set keys ∧
  ∃ events,
    trace (snd (Keyboard_Type p keys w)) = trace w ++ (key_sent p <$> events) ∧
    (λ e, (KeyType e, KeyOf e)) <$> events
    = keys ≫= λ key, [(InputDispatchKeyEventTypeKeyDown, key);
                      (InputDispatchKeyEventTypeKeyUp, key)].
Proof.
  rewrite <- KeyActions_each_Type. intros Hok.
  destruct (KeyActions_each_ok p _ w Hok) as [-> ->]. split.
  - apply pressed_after_Type.
  - eexists. split; [reflexivity|]. apply key_events_Type.
Qed.

(** ** Mouse *)

(** The request [Mouse.MoveTo] sends. *)
Definition Mouse_moved (p : Page) (to : Point) (w : World) : Sent :=
  (SessionID p,
   ReqInputDispatchMouseEvent
     {| MouseType := InputDispatchMouseEventTypeMouseMoved;
        MouseX := X to;
        MouseY := Y to;
        Button := fst (EncodeMouseButton (buttons w));
        Buttons := snd (EncodeMouseButton (buttons w));
        ClickCount := 0;
        MouseModifiers := Keyboard_modifiers w |}).

Lemma Mouse_MoveTo_eq (p : Page) (to : Point) (w : World) :
  Mouse_MoveTo p to w =
  let w1 := set_trace (trace w ++ [Mouse_moved p to w]) w in
  match Reply_err (browser (trace w) (Mouse_moved p to w)) with
  | Some e => (Some e, w1)
  | None =>
      (None, snd ((if tracing then mouseTracer else mret tt) (set_pos to w1)))
  end.
Proof.
  unfold Mouse_MoveTo, Mouse_moved, mbind, M_bind, get, Call, Keyboard_getModifiers.
  simpl. destruct (EncodeMouseButton (buttons w)) as [button btns]. simpl.
  destruct (Reply_err _); [done|]. simpl.
  by destruct ((if tracing then mouseTracer else mret tt) _).
Qed.

(** X7: [Mouse.MoveTo] sends one mouseMoved event for the target point, with
    the buttons held and the keyboard's modifiers; when the call fails it
    returns the error and the position is the one it was, and (tracing off)
    when it succeeds the position is the target; it never changes the
    buttons held or the keys pressed. *)
Theorem Mouse_MoveTo_spec (p : Page) (to : Point) (w : World) :
  (∀ e, browser (trace w) (Mouse_moved p to w) = ReplyErr e →
     Mouse_MoveTo p to w = (Some e, set_trace (trace w ++ [Mouse_moved p to w]) w)) ∧
  (tracing = false →
   trace (snd (Mouse_MoveTo p to w)) = trace w ++ [Mouse_moved p to w] ∧
   buttons (snd (Mouse_MoveTo p to w)) = buttons w ∧
   pressed (snd (Mouse_MoveTo p to w)) = pressed w ∧
   (fst (Mouse_MoveTo p to w) = None → pos (snd (Mouse_MoveTo p to w)) = to) ∧
   (∀ e, fst (Mouse_MoveTo p to w) = Some e → pos (snd (Mouse_MoveTo p to w)) = pos w)).
Proof.
  split.
  - intros e He. rewrite Mouse_MoveTo_eq. cbv zeta. by rewrite He.
  - intros Hoff. rewrite Mouse_MoveTo_eq. cbv zeta. rewrite Hoff.
    by destruct (Reply_err _).
Qed.

Lemma Mouse_MoveTo_pos (p : Page) (to : Point) (w : World) :
  tracing = false →
  pos (snd (Mouse_MoveTo p to w)) =
    match fst (Mouse_MoveTo p to w) with Some _ => pos w | None => to end ∧
  length (trace (snd (Mouse_MoveTo p to w))) = S (length (trace w)).
Proof.
  intros Hoff. rewrite Mouse_MoveTo_eq. cbv zeta. rewrite Hoff.
  destruct (Reply_err _); simpl; rewrite length_app; simpl; split; try done; lia.
Qed.

(** X8: when the guide says stop at some answer, [Mouse.MoveAlong] returns;
    (tracing off) if it returns nil the mouse is at the point of that answer
    and one event was sent for each answer up to it, and if it returns an
    error the mouse is where it started or at one of the points before. *)
Theorem Mouse_MoveAlong_spec (p : Page) (pre post : list (Point * bool))
    (to : Point) (w : World) :
  tracing = false →
  (∀ answer, answer ∈ pre → answer.2 = false) →
  let out := Mouse_MoveAlong p (pre ++ (to, true) :: post) w in
  is_Some (fst out) ∧
  (fst out = Some None →
     pos (snd out) = to ∧
     length (trace (snd out)) = (length (trace w) + length pre + 1)%nat) ∧
  (∀ e, fst out = Some (Some e) → pos (snd out) ∈ pos w :: pre.*1).
Proof.
  intros Hoff. revert w. induction pre as [|[pt stop] pre IH]; intros w Hpre out.
  - subst out. simpl. unfold mbind, M_bind.
    destruct (Mouse_MoveTo_pos p to w Hoff) as [Hpos Hlen].
    destruct (Mouse_MoveTo p to w) as [[e|] w1]; simpl in *.
    + split; [by eexists|]. split; [done|]. intros _ _. rewrite Hpos. by left.
    + split; [by eexists|]. split; [|done]. intros _. split; [done|]. lia.
  - assert (stop = false) as -> by (apply (Hpre (pt, stop)); by left).
    assert (Hrest : ∀ answer, answer ∈ pre → answer.2 = false)
      by (intros a Ha; apply Hpre; by right).
    subst out. simpl. unfold mbind, M_bind.
    destruct (Mouse_MoveTo_pos p pt w Hoff) as [Hpos Hlen].
    destruct (Mouse_MoveTo p pt w) as [[e|] w1]; simpl in *.
    + split; [by eexists|]. split; [done|]. intros _ _. rewrite Hpos. by left.
    + destruct (IH w1 Hrest) as (Hsome & Hok & Herr). split; [done|]. split.
      * intros Hnil. destruct (Hok Hnil) as [-> ->]. split; [done|]. lia.
      * intros e He. specialize (Herr e He). rewrite Hpos in Herr.
        apply elem_of_cons in Herr as [->|Hin].
        -- right. by left.
        -- right. by right.
Qed.

Lemma filter_snoc_same (button : InputMouseButton) (l : list InputMouseButton) :
  filter (λ btn, btn ≠ button) (l ++ [button]) = filter (λ btn, btn ≠ button) l.
Proof.
  rewrite filter_app, (filter_cons_False _ button []) by (intros Hc; by apply Hc).
  by rewrite filter_nil, app_nil_r.
Qed.

(** X9: a [Mouse.Click] that returns nil leaves on the stack the buttons that
    were there, less the clicked one: a button that was not held is not held
    afterwards.  When the press fails the release is not sent and the stack
    is untouched; when the press succeeds and the release fails, the button
    stays on the stack. *)
Theorem Mouse_Click_spec (p : Page) (button : InputMouseButton) (clickCount : Z)
    (w : World) :
  let out := Mouse_Click p button clickCount w in
  let down := Mouse_Down p button clickCount w in
  (fst out = None →
     buttons (snd out) = filter (λ btn, btn ≠ button) (buttons w) ∧
     (button ∉ buttons w → buttons (snd out) = buttons w) ∧
     length (trace (snd out)) = (length (trace w) + 2)%nat) ∧
  (∀ e, fst down = Some e →
     fst out = Some e ∧ buttons (snd out) = buttons w ∧
     length (trace (snd out)) = (length (trace w) + 1)%nat) ∧
  (∀ e, fst down = None → fst out = Some e →
     buttons (snd out) = buttons w ++ [button]).
Proof.
  intros out down. subst out down. unfold Mouse_Click, mbind, M_bind.
  rewrite Mouse_Down_eq. cbv zeta.
  destruct (Reply_err (browser (trace w) _)) as [e|]; simpl.
  - split; [done|]. split; [|done]. intros e' [= <-].
    rewrite length_app. simpl. split; [done|]. split; [done|]. lia.
  - rewrite Mouse_Up_eq. cbv zeta. simpl.
    destruct (Reply_err (browser _ _)) as [e|]; simpl.
    + split; [done|]. split; [done|]. by intros e' _ _.
    + split; [|split; [done|by intros e' _ ?]]. intros _.
      rewrite filter_snoc_same. split; [done|]. split.
      * apply filter_absent.
      * rewrite !length_app. simpl. lia.
Qed.

(** X10: a mouse press carries the keyboard's modifiers: after [Keyboard.Press]
    of a key, whatever the browser answered to it, the event [Mouse.Down]
    sends has every modifier bit of that key. *)
Theorem Mouse_Down_modifiers (p : Page) (key : Key) (button : InputMouseButton)
    (clickCount n : Z) (w : World) :
  let w1 := snd (Keyboard_Press p key w) in
  let w2 := snd (Mouse_Down p button clickCount w1) in
  ∃ ev,
    trace w2 = trace w1 ++ [(SessionID p, ReqInputDispatchMouseEvent ev)] ∧
    MouseType ev = InputDispatchMouseEventTypeMousePressed ∧
    Button ev = button ∧
    (Z.testbit (Modifier key) n = true → Z.testbit (MouseModifiers ev) n = true).
Proof.
  intros w1 w2.
  exists (Mouse_event InputDispatchMouseEventTypeMousePressed
            (buttons w1 ++ [button]) button clickCount (Keyboard_modifiers w1) (pos w1)).
  assert (Hin : key ∈ pressed w1).
  { subst w1. rewrite Keyboard_Press_pressed. set_solver. }
  split; [|split; [|split]].
  - subst w2. rewrite Mouse_Down_eq. cbv zeta. by destruct (Reply_err _).
  - unfold Mouse_event. by destruct (EncodeMouseButton _).
  - unfold Mouse_event. by destruct (EncodeMouseButton _).
  - intros Hbit. unfold Mouse_event. destruct (EncodeMouseButton _). simpl.
    apply Keyboard_modifiers_bits. by exists key.
Qed.

(** ** Screenshot *)

(** X11: a [Screenshot] that is not full-page sends the capture and nothing
    else.  A full-page one that cannot read the layout metrics, or reads them
    without a content size, returns an error after that one call; one whose
    override of the device metrics is refused returns that error without
    capturing and without sending any call to restore the viewport. *)
Theorem Page_Screenshot_early (p : Page) (req : option PageCaptureScreenshot) (w : World) :
  let sid := SessionID p in
  let t1 := trace w ++ [(sid, ReqPageGetLayoutMetrics)] in
  let capture := (sid, ReqPageCaptureScreenshot (default (mkCapture "") req)) in
  trace (snd (Page_Screenshot p false req w)) = trace w ++ [capture] ∧
  (∀ e, browser (trace w) (sid, ReqPageGetLayoutMetrics) = ReplyErr e →
     Page_Screenshot p true req w = (inr e, set_trace t1 w)) ∧
  (∀ metrics,
     browser (trace w) (sid, ReqPageGetLayoutMetrics) = ReplyOk metrics →
     PageGetLayoutMetricsResult_CSSContentSize metrics = None →
     Page_Screenshot p true req w
     = (inr (ErrNew "failed to get css content size"), set_trace t1 w)) ∧
  (∀ metrics size e,
     browser (trace w) (sid, ReqPageGetLayoutMetrics) = ReplyOk metrics →
     PageGetLayoutMetricsResult_CSSContentSize metrics = Some size →
     let view := {| Width := int_of_float64 (RectWidth size);
                    Height := int_of_float64 (RectHeight size);
                    Mobile := Mobile (default EmulationSetDeviceMetricsOverride_zero
                                        (states t1 sid)) |} in
     let override := (sid, ReqEmulationSetDeviceMetricsOverride view) in
     browser t1 override = ReplyErr e →
     Page_Screenshot p true req w = (inr e, set_trace (t1 ++ [override]) w)).
Proof.
  intros sid t1 capture. split; [|split; [|split]].
  - unfold Page_Screenshot, Page_Screenshot_capture, mbind, M_bind, Call. simpl.
    by destruct (browser _ _).
  - intros e He. unfold Page_Screenshot, mbind, M_bind, Call. simpl.
    fold sid. by rewrite He.
  - intros metrics Hm Hsize. unfold Page_Screenshot, mbind, M_bind, Call. simpl.
    fold sid. by rewrite Hm, Hsize.
  - intros metrics size e Hm Hsize view override He.
    unfold Page_Screenshot, Page_LoadState, Page_SetViewport, mbind, M_bind, get, Call.
    simpl. fold sid. rewrite Hm, Hsize. simpl. fold t1.
    subst override view. destruct (states t1 sid) as [oldView|]; simpl in He |- *;
      rewrite He; simpl; unfold set_trace; simpl; done.
Qed.

(** ** Close *)

(** X12: [Close] calls [Page.close] again for as long as the browser answers
    that it is not attached to an active page: after [k] such answers and
    another one, it has called [k + 1] times and goes on with that answer;
    while the browser keeps answering so, the loop does not end. *)
Theorem Page_Close_call_retries (p : Page) (k : nat) (w : World) :
  let close := (SessionID p, ReqPageClose) in
  (∀ i, i < k →
     browser (trace w ++ replicate i close) close = ReplyErr ErrNotAttachedToActivePage) →
  (errors_Is_NotAttached (Reply_err (browser (trace w ++ replicate k close) close)) = false →
   ∀ fuel, k < fuel →
     Page_Close_call fuel p w
     = (Some (Reply_err (browser (trace w ++ replicate k close) close)),
        set_trace (trace w ++ replicate (S k) close) w)) ∧
  (∀ fuel, fuel ≤ k → fst (Page_Close_call fuel p w) = None).
Proof.
  intros close. revert w. induction k as [|k IH]; intros w Hretry.
  - split.
    + intros Hend fuel Hfuel. destruct fuel as [|fuel]; [lia|].
      simpl in *. unfold mbind, M_bind, Call. fold close.
      rewrite app_nil_r in Hend |- *. by rewrite Hend.
    + intros fuel Hfuel. by assert (fuel = 0) as -> by lia.
  - assert (Hfirst : browser (trace w) close = ReplyErr ErrNotAttachedToActivePage).
    { specialize (Hretry 0). simpl in Hretry. rewrite app_nil_r in Hretry.
      apply Hretry. lia. }
    assert (Hshift : ∀ i, trace (set_trace (trace w ++ [close]) w) ++ replicate i close
                          = trace w ++ replicate (S i) close).
    { intros i. simpl. by rewrite <- app_assoc. }
    destruct (IH (set_trace (trace w ++ [close]) w)) as [Hend Hloop].
    { intros i Hi. rewrite Hshift. apply Hretry. lia. }
    split.
    + intros Hlast fuel Hfuel. destruct fuel as [|fuel]; [lia|].
      cbn [Page_Close_call]. unfold mbind, M_bind, Call. fold close.
      rewrite Hfirst. simpl. rewrite Hshift in Hend.
      rewrite (Hend Hlast fuel) by lia. by rewrite Hshift.
    + intros fuel Hfuel. destruct fuel as [|fuel]; [done|].
      cbn [Page_Close_call]. unfold mbind, M_bind, Call. fold close.
      rewrite Hfirst. simpl. apply Hloop. lia.
Qed.

Lemma Page_Close_messages_false (p : Page) (success : bool) (messages : list Message) :
  Page_Close_messages p success messages = false →
  success = false ∨
  ∃ msg, msg ∈ messages ∧ MsgSessionID msg = SessionID p ∧
         MsgPayload msg = EvJavascriptDialogClosed (mkDialogClosed false).
Proof.
  revert success. induction messages as [|msg messages IH]; intros success; [by left|].
  simpl. unfold Page_Close_msg, Load_TargetDestroyed, Load_JavascriptDialogClosed.
  assert (Hnext : ∀ s, Page_Close_messages p s messages = false →
            s = false ∨
            ∃ m, m ∈ msg :: messages ∧ MsgSessionID m = SessionID p ∧
                 MsgPayload m = EvJavascriptDialogClosed (mkDialogClosed false)).
  { intros s Hs. destruct (IH s Hs) as [?|(m & Hm & ?)]; [by left|].
    right. exists m. split; [by right|done]. }
  destruct msg as [sid [[tid]|d|[res]|e|e|e|m]]; simpl;
    try (rewrite andb_false_r; by apply Hnext).
  - destruct (bool_decide (tid = TargetID p)); [by left|by apply Hnext].
  - destruct (bool_decide_reflect (sid = SessionID p)) as [Heq|Hne]; simpl;
      [|by apply Hnext].
    destruct res; simpl.
    + intros Hs. destruct (Hnext true Hs) as [?|?]; [done|by right].
    + intros _. right. eexists. split; [by left|]. done.
Qed.

Lemma Page_Close_messages_quiet (p : Page) (messages : list Message) :
  (∀ msg, msg ∈ messages →
     ¬ (MsgSessionID msg = SessionID p ∧
        MsgPayload msg = EvJavascriptDialogClosed (mkDialogClosed false))) →
  Page_Close_messages p true messages = true.
Proof.
  intros Hquiet. destruct (Page_Close_messages p true messages) eqn:Hres; [done|].
  apply Page_Close_messages_false in Hres as [?|(msg & Hin & Hs & Hp)]; [done|].
  exfalso. by apply (Hquiet msg Hin).
Qed.

(** X13: once [Page.close] went through, [Close] returns
    [PageCloseCanceledError] only if the stream delivered a dialog closed
    with result false on the page's session; when the stream ends without
    one, also without any [TargetDestroyed], [Close] runs the cleanup and
    returns nil.  When [Page.close] fails otherwise, [Close] returns that
    error and does not clean up. *)
Theorem Page_Close_outcomes (fuel : nat) (p : Page) (messages : list Message)
    (w w1 : World) (r : option error) :
  Page_Close_call fuel p w = (Some r, w1) →
  (∀ e, r = Some e →
     Page_Close fuel p messages w = (Some (Some e), w1) ∧ cleaned w1 = cleaned w) ∧
  (r = None →
   (fst (Page_Close fuel p messages w) = Some (Some PageCloseCanceledError) →
    ∃ msg, msg ∈ messages ∧ MsgSessionID msg = SessionID p ∧
           MsgPayload msg = EvJavascriptDialogClosed (mkDialogClosed false)) ∧
   ((∀ msg, msg ∈ messages →
       ¬ (MsgSessionID msg = SessionID p ∧
          MsgPayload msg = EvJavascriptDialogClosed (mkDialogClosed false))) →
    Page_Close fuel p messages w = (Some None, set_cleaned (cleaned w1 ++ [TargetID p]) w1))).
Proof.
  intros Hcall. split.
  - intros e ->. unfold Page_Close, mbind, M_bind. rewrite Hcall. split; [done|].
    rewrite <- (Page_Close_call_cleaned fuel p w). by rewrite Hcall.
  - intros ->. unfold Page_Close, mbind, M_bind. rewrite Hcall. split.
    + destruct (Page_Close_messages p true messages) eqn:Hres; [done|]. intros _.
      by apply Page_Close_messages_false in Hres as [?|?].
    + intros Hquiet. by rewrite Page_Close_messages_quiet.
Qed.

(** ** The event dispatcher *)

(** X14: the dispatcher of any page publishes only messages of the page's
    session, in the order they were delivered and each once: what it
    publishes is a prefix of the session's messages, all of them if it ends
    without cancelling. *)
Theorem Page_initEvents_publishes (p : Page) (event : list Message) :
  fst (Page_initEvents p event) `prefix_of` own_messages p event ∧
  (snd (Page_initEvents p event) = false →
   fst (Page_initEvents p event) = own_messages p event).
Proof.
  induction event as [|msg event [IHp IHe]]; [split; [apply prefix_nil|done]|].
  rewrite own_messages_cons. cbn [Page_initEvents].
  destruct (Load_DetachedFromTarget msg (mkDetached "")) as [isDetached detached].
  destruct ((isDetached && bool_decide (DetachedSessionID detached = SessionID p))
            || (LoadByValue_TargetDestroyed msg (mkDestroyed "")
                && bool_decide (DestroyedTargetID (mkDestroyed "") = TargetID p))).
  - simpl. split; [apply prefix_nil|done].
  - destruct (bool_decide (MsgSessionID msg ≠ SessionID p)); [done|].
    destruct (Page_initEvents p event) as [published cancelled]. simpl in *. split.
    + by apply prefix_cons.
    + intros Hc. by rewrite IHe.
Qed.

(** ** Navigation *)

(** X15: whatever the browser answers, [Navigate] touches no JS context slot
    but that of the root page (a clone with a slot of its own keeps it), and
    leaves the keyboard, the mouse and the cleanup record alone. *)
Theorem Page_Navigate_frame (p : Page) (url : string) (w : World) :
  let w' := snd (Page_Navigate p url w) in
  (∀ slot, slot ≠ jsCtxID (Page_root p) → jsCtx w' !! slot = jsCtx w !! slot) ∧
  (jsCtxID p ≠ jsCtxID (Page_root p) → jsCtx w' !! jsCtxID p = jsCtx w !! jsCtxID p) ∧
  pressed w' = pressed w ∧ buttons w' = buttons w ∧ pos w' = pos w ∧
  cleaned w' = cleaned w.
Proof.
  intros w'. subst w'.
  unfold Page_Navigate, Page_StopLoading, Page_unsetJSCtxID, modify, mbind, M_bind, Call.
  simpl.
  destruct (browser _ _) as [res|e]; simpl.
  - destruct (decide (PageNavigateResult_ErrorText res ≠ "")); simpl.
    + done.
    + split; [|split]; [| |done]; intros; by rewrite lookup_insert_ne.
  - done.
Qed.

(** ** Request idle *)

Lemma WaitRequestIdle_event_lookup (includes excludes : list string)
    (excludeTypes : list NetworkResourceType) (id : NetworkRequestID)
    (ev : Payload) (st : RequestIdle) :
  is_Some (waitList (WaitRequestIdle_event includes excludes excludeTypes ev st) !! id) ↔
  if request_event includes excludes excludeTypes id ev
  then match ev with EvRequestWillBeSent _ => True | _ => False end
  else is_Some (waitList st !! id).
Proof.
  assert (Hdone : ∀ id', is_Some (waitList (WaitRequestIdle_checkDone id' st) !! id) ↔
            if bool_decide (id' = id) then False else is_Some (waitList st !! id)).
  { intros id'. unfold WaitRequestIdle_checkDone.
    destruct (bool_decide_reflect (id' = id)) as [->|Hne].
    - destruct (waitList st !! id) as [u|] eqn:Hid; simpl.
      + rewrite lookup_delete_eq. split; [by intros [? ?]|done].
      + rewrite Hid. split; [by intros [? ?]|done].
    - destruct (waitList st !! id') as [u|]; simpl; [|done].
      by rewrite lookup_delete_ne. }
  destruct ev as [e|e|e|sent|e|e|m]; simpl; try done.
  unfold WaitRequestIdle_onSent, request_accepted.
  destruct (existsb _ _); simpl; [by rewrite andb_false_r|].
  destruct (genRegMatcher _ _ _); simpl; [|by rewrite andb_false_r].
  rewrite andb_true_r.
  destruct (bool_decide_reflect (SentRequestID sent = id)) as [->|Hne].
  - destruct (waitList st !! id) as [u|] eqn:Hid; simpl.
    + rewrite Hid. split; [done|by eexists].
    + rewrite lookup_insert_eq. split; [done|by eexists].
  - destruct (waitList st !! SentRequestID sent); simpl; [done|].
    by rewrite lookup_insert_ne.
Qed.

(** X16: after any sequence of events, the wait list of [WaitRequestIdle]
    holds exactly the requests in flight: those whose last event, among the
    accepted [RequestWillBeSent], the [LoadingFinished] and the
    [LoadingFailed] for their id, is a [RequestWillBeSent]. *)
Theorem WaitRequestIdle_in_flight (includes excludes : list string)
    (excludeTypes : option (list NetworkResourceType)) (events : list Payload)
    (id : NetworkRequestID) :
  is_Some (waitList (WaitRequestIdle_events includes excludes excludeTypes events) !! id) ↔
  in_flight (WaitRequestIdle_includes includes) excludes
    (WaitRequestIdle_excludeTypes excludeTypes) id events.
Proof.
  unfold WaitRequestIdle_events, in_flight.
  induction events as [|ev events IH] using rev_ind.
  - simpl. rewrite lookup_empty. split; [by intros [? ?]|done].
  - rewrite foldl_snoc, WaitRequestIdle_event_lookup, filter_app.
    destruct (request_event _ _ _ id ev) eqn:Hev.
    + rewrite (filter_cons_True _ ev []) by done. rewrite filter_nil, last_snoc.
      by destruct ev.
    + rewrite (filter_cons_False _ ev []) by (by rewrite Hev).
      by rewrite filter_nil, app_nil_r.
Qed.

(** X17: after any sequence of events, the idle counter of [WaitRequestIdle]
    is the number of requests on the wait list; it is never negative, so
    [Done] is never called more often than [Add]. *)
Theorem WaitRequestIdle_counter (includes excludes : list string)
    (excludeTypes : option (list NetworkResourceType)) (events : list Payload) :
  idleCounter (WaitRequestIdle_events includes excludes excludeTypes events)
    = Z.of_nat (size (waitList
                        (WaitRequestIdle_events includes excludes excludeTypes events))) ∧
  (0 ≤ idleCounter (WaitRequestIdle_events includes excludes excludeTypes events))%Z.
Proof.
  assert (Hcount : idleCounter (WaitRequestIdle_events includes excludes excludeTypes events)
    = Z.of_nat (size (waitList
                        (WaitRequestIdle_events includes excludes excludeTypes events)))).
  { unfold WaitRequestIdle_events.
    induction events as [|ev events IH] using rev_ind; [done|].
    rewrite foldl_snoc. by apply WaitRequestIdle_event_count. }
  split; [done|]. rewrite Hcount. lia.
Qed.

(** ** Stable *)

Lemma Page_WaitStable_cases (eLoad eDOM : option error) (finished : list StableTask) :
  Page_WaitStable finished eLoad eDOM = eLoad ∨
  Page_WaitStable finished eLoad eDOM = eDOM ∨
  (∀ t, t ∈ finished → t = TaskWaitRequestIdle).
Proof.
  unfold Page_WaitStable.
  induction finished as [|t finished IH].
  - right. right. intros t Ht. by apply elem_of_nil in Ht.
  - destruct t; simpl; unfold setErr_Do; simpl.
    + left. by rewrite WaitStable_finish_done.
    + destruct IH as [?|[?|Hidle]]; [by left|by right; left|].
      right. right. intros t Ht. apply elem_of_cons in Ht as [->|Ht]; [done|by apply Hidle].
    + right. left. by rewrite WaitStable_finish_done.
Qed.

(** X18: when the three functions complete, in whatever order, what
    [WaitStable] returns is what [WaitLoad] or [WaitDOMStable] returned: an
    error it returns is the error of one of them, it returns nil when both
    returned nil, and an error when both failed. *)
Theorem Page_WaitStable_sound (eLoad eDOM : option error) (finished : list StableTask) :
  all_complete finished →
  (Page_WaitStable finished eLoad eDOM = eLoad ∨
   Page_WaitStable finished eLoad eDOM = eDOM) ∧
  (eLoad = None → eDOM = None → Page_WaitStable finished eLoad eDOM = None) ∧
  (is_Some eLoad → is_Some eDOM → is_Some (Page_WaitStable finished eLoad eDOM)).
Proof.
  intros Hall.
  assert (Hcases : Page_WaitStable finished eLoad eDOM = eLoad ∨
                   Page_WaitStable finished eLoad eDOM = eDOM).
  { destruct (Page_WaitStable_cases eLoad eDOM finished) as [?|[?|Hidle]];
      [by left|by right|].
    assert (Hin : TaskWaitLoad ∈ finished).
    { unfold all_complete in Hall. rewrite Hall. by left. }
    by specialize (Hidle _ Hin). }
  split; [done|]. split.
  - intros -> ->. by destruct Hcases.
  - intros Hl Hd. by destruct Hcases as [->| ->].
Qed.

(** ** The page's name *)

Lemma string_length_app (s1 s2 : string) :
  String.length (s1 +:+ s2) = String.length s1 + String.length s2.
Proof. induction s1 as [|c s1 IH]; simpl; [done|by rewrite IH]. Qed.

Lemma string_app_empty (s : string) : s +:+ "" = s.
Proof.
  induction s as [|c s IH]; [done|].
  change (String c (s +:+ "") = String c s). by f_equal.
Qed.

Lemma substring_0_length (n : nat) (s : string) :
  n ≤ String.length s → String.length (String.substring 0 n s) = n.
Proof.
  revert s. induction n as [|n IH]; intros s Hn.
  - by destruct s.
  - destruct s as [|c s]; simpl in *; [lia|]. rewrite IH; [done|lia].
Qed.

Lemma substring_0_prefix (n : nat) (s : string) :
  ∃ rest, s = String.substring 0 n s +:+ rest.
Proof.
  revert s. induction n as [|n IH]; intros s.
  - exists s. by destruct s.
  - destruct s as [|c s]; simpl; [by exists ""|].
    destruct (IH s) as [rest Hrest]. exists rest.
    change (String c s = String c (String.substring 0 n s +:+ rest)). by f_equal.
Qed.

(** X19: [String] names a page by at most the first eight bytes of its
    target id: the name is never longer than fifteen bytes, an id of eight
    bytes or less is shown whole, and what is shown of a longer one is how
    it starts. *)
Theorem Page_String_short (p : Page) :
  String.length (Page_String p) = 7 + String.length (TargetID p) `min` 8 ∧
  String.length (Page_String p) ≤ 15 ∧
  (String.length (TargetID p) ≤ 8 → Page_String p = "<page:" +:+ TargetID p +:+ ">") ∧
  ∃ shown rest, Page_String p = "<page:" +:+ shown +:+ ">" ∧ TargetID p = shown +:+ rest.
Proof.
  unfold Page_String.
  destruct (decide (8 < String.length (TargetID p))) as [Hlong|Hshort].
  - assert (Hlen : String.length (String.substring 0 8 (TargetID p)) = 8)
      by (apply substring_0_length; lia).
    split; [|split; [|split]].
    + rewrite !string_length_app, Hlen. simpl. lia.
    + rewrite !string_length_app, Hlen. simpl. lia.
    + lia.
    + destruct (substring_0_prefix 8 (TargetID p)) as [rest Hrest].
      by exists (String.substring 0 8 (TargetID p)), rest.
  - split; [|split; [|split]].
    + rewrite !string_length_app. simpl. lia.
    + rewrite !string_length_app. simpl. lia.
    + done.
    + exists (TargetID p), "". split; [done|]. by rewrite string_app_empty.
Qed.

(** ** Extra headers *)

Lemma SetExtraHeaders_headers_pairs (pairs : list (string * string)) (rest : list string)
    (headers : gmap string string) :
  SetExtraHeaders_headers (dict_of pairs ++ rest) headers
  = SetExtraHeaders_headers rest (foldl (λ h pair, <[pair.1 := pair.2]> h) headers pairs).
Proof.
  revert headers. induction pairs as [|[name value] pairs IH]; intros headers; [done|].
  unfold dict_of in *. simpl. apply IH.
Qed.

Lemma dict_of_or_odd (dict : list string) :
  ∃ pairs, dict = dict_of pairs ∨ ∃ name, dict = dict_of pairs ++ [name].
Proof.
  induction dict as [|x dict [pairs [->|[name ->]]]] using rev_ind.
  - exists []. by left.
  - exists pairs. right. by exists x.
  - exists (pairs ++ [(name, x)]). left.
    unfold dict_of. rewrite bind_app. simpl. by rewrite <- app_assoc.
Qed.

Lemma dict_of_length (pairs : list (string * string)) :
  length (dict_of pairs) = 2 * length pairs.
Proof.
  induction pairs as [|pair pairs IH]; [done|].
  change (dict_of (pair :: pairs)) with ([pair.1; pair.2] ++ dict_of pairs).
  simpl. rewrite IH. lia.
Qed.

Lemma headers_lookup (pairs : list (string * string)) (headers : gmap string string)
    (name : string) :
  foldl (λ h pair, <[pair.1 := pair.2]> h) headers pairs !! name
  = match last (filter (λ pair, pair.1 = name) pairs) with
    | Some entry => Some entry.2
    | None => headers !! name
    end.
Proof.
  induction pairs as [|[n v] pairs IH] using rev_ind; [done|].
  rewrite foldl_snoc, filter_app. simpl.
  destruct (decide (n = name)) as [->|Hne].
  - rewrite (filter_cons_True _ (name, v) []) by done.
    by rewrite filter_nil, last_snoc, lookup_insert_eq.
  - rewrite (filter_cons_False _ (n, v) []) by done.
    by rewrite filter_nil, app_nil_r, lookup_insert_ne.
Qed.

(** X20: the loop of [SetExtraHeaders] panics on a [dict] with an odd number
    of entries, with an index out of range after the pairs before were
    taken; on an even number it gives each name the value of the last pair
    with that name, and leaves the other names as they were. *)
Theorem SetExtraHeaders_headers_spec (dict : list string) (headers : gmap string string) :
  (SetExtraHeaders_headers dict headers = None ↔ Nat.Odd (length dict)) ∧
  (∀ pairs, dict = dict_of pairs →
     ∃ filled,
       SetExtraHeaders_headers dict headers = Some filled ∧
       ∀ name, filled !! name
               = match last (filter (λ pair, pair.1 = name) pairs) with
                 | Some entry => Some entry.2
                 | None => headers !! name
                 end).
Proof.
  split.
  - destruct (dict_of_or_odd dict) as [pairs [->|[name ->]]].
    + rewrite <- (app_nil_r (dict_of pairs)) at 1.
      rewrite SetExtraHeaders_headers_pairs, dict_of_length. simpl. split; [done|].
      intros [k Hk]. lia.
    + rewrite SetExtraHeaders_headers_pairs, length_app, dict_of_length. simpl.
      split; [|done]. intros _. exists (length pairs). lia.
  - intros pairs ->. eexists. split.
    + rewrite <- (app_nil_r (dict_of pairs)).
      rewrite SetExtraHeaders_headers_pairs. reflexivity.
    + intros name. apply headers_lookup.
Qed.

End Rod.

(** * A concrete protocol and some browsers

    Keys and mouse buttons named by strings, coordinates in [Z]; the modifier
    bits and button flags are those of the protocol (Alt 1, Control 2, Meta 4,
    Shift 8; left 1, right 2, middle 4). *)

Definition example_Modifier (key : string) : Z :=
  if decide (key = "AltLeft") then 1
  else if decide (key = "ControlLeft") then 2
  else if decide (key = "MetaLeft") then 4
  else if decide (key = "ShiftLeft") then 8
  else 0.

Definition example_flag (button : string) : Z :=
  if decide (button = "left") then 1
  else if decide (button = "right") then 2
  else if decide (button = "middle") then 4
  else 0.

Definition example_EncodeMouseButton (buttons : list string) : string * Z :=
  (default "none" (head buttons), foldl (λ flag btn, Z.lor flag (example_flag btn)) 0%Z buttons).

Definition example_page : Page := mkPage "T1" "F1" "S1" 1%positive None.

Definition example_world : World (Key := string) (InputMouseButton := string) (float64 := Z) :=
  mkWorld [] ∅ [] (mkPoint 0%Z 0%Z) ∅ [].

(** A browser that accepts every call. *)
Definition browser_ok
  : list (Sent (Key := string) (InputMouseButton := string) (float64 := Z))
    → Sent (Key := string) (InputMouseButton := string) (float64 := Z)
    → Reply (float64 := Z) :=
  λ _ _, ReplyOk ResEmpty.

(** A browser whose connection is gone: every call fails. *)
Definition browser_closed
  : list (Sent (Key := string) (InputMouseButton := string) (float64 := Z))
    → Sent (Key := string) (InputMouseButton := string) (float64 := Z)
    → Reply (float64 := Z) :=
  λ _ _, ReplyErr (ErrCall "context canceled").

(** A browser that refuses the first call as not attached to an active page
    and accepts the following ones. *)
Definition browser_navigating
  : list (Sent (Key := string) (InputMouseButton := string) (float64 := Z))
    → Sent (Key := string) (InputMouseButton := string) (float64 := Z)
    → Reply (float64 := Z) :=
  λ sent _, match sent with
            | [] => ReplyErr ErrNotAttachedToActivePage
            | _ => ReplyOk ResEmpty
            end.

(** A browser that cannot resolve the host of a navigation. *)
Definition browser_offline
  : list (Sent (Key := string) (InputMouseButton := string) (float64 := Z))
    → Sent (Key := string) (InputMouseButton := string) (float64 := Z)
    → Reply (float64 := Z) :=
  λ _ call, match call.2 with
            | ReqPageNavigate _ => ReplyOk (ResPageNavigate "net::ERR_NAME_NOT_RESOLVED")
            | _ => ReplyOk ResEmpty
            end.

(** A browser that reports a content size of 800 by 6000 and fails to
    capture. *)
Definition browser_no_capture
  : list (Sent (Key := string) (InputMouseButton := string) (float64 := Z))
    → Sent (Key := string) (InputMouseButton := string) (float64 := Z)
    → Reply (float64 := Z) :=
  λ _ call, match call.2 with
            | ReqPageGetLayoutMetrics =>
                ReplyOk (ResPageGetLayoutMetrics (Some (mkRect 800%Z 6000%Z)))
            | ReqPageCaptureScreenshot _ => ReplyErr (ErrCall "capture failed")
            | _ => ReplyOk ResEmpty
            end.

(** The recorded override of a phone, and no recorded override. *)
Definition example_phone : EmulationSetDeviceMetricsOverride :=
  {| Width := 375; Height := 667; Mobile := true |}.

Definition states_phone
  : list (Sent (Key := string) (InputMouseButton := string) (float64 := Z))
    → string → option EmulationSetDeviceMetricsOverride :=
  λ _ _, Some example_phone.

Definition states_none
  : list (Sent (Key := string) (InputMouseButton := string) (float64 := Z))
    → string → option EmulationSetDeviceMetricsOverride :=
  λ _ _, None.

(** The scenario of the spec for [KeyActions]. *)
Definition example_actions : list (KeyAction (Key := string)) :=
  KeyActions_Press ["ControlLeft"; "ShiftLeft"; "ControlLeft"] [].

(** Events that reach [Close] before the one that decides: a dialog accepted
    on the page's session and the destruction of another target. *)
Definition example_pending : list Message :=
  [mkMessage "S1" (EvJavascriptDialogClosed (mkDialogClosed true));
   mkMessage "" (EvTargetDestroyed (mkDestroyed "T2"))].

(** ** Instances of the properties *)

Lemma Keyboard_Release_spec_witness :
  Keyboard_Release example_Modifier browser_ok example_page "KeyA" example_world
    = (None, example_world) ∧
  (let w1 := snd (Keyboard_Press example_Modifier browser_ok example_page "ShiftLeft"
                    (Page_newKeyboard example_world)) in
   let w2 := snd (Keyboard_Press example_Modifier browser_ok example_page "KeyA" w1) in
   let w3 := snd (Keyboard_Release example_Modifier browser_ok example_page "ShiftLeft" w2) in
   let w4 := snd (Keyboard_Release example_Modifier browser_ok example_page "KeyA" w3) in
   trace w3 = trace w2 ++
     [(SessionID example_page,
       ReqInputDispatchKeyEvent (Key_Encode InputDispatchKeyEventTypeKeyUp "ShiftLeft" 0%Z))] ∧
   trace w4 = trace w3 ++
     [(SessionID example_page,
       ReqInputDispatchKeyEvent (Key_Encode InputDispatchKeyEventTypeKeyUp "KeyA" 0%Z))] ∧
   pressed w4 = ∅).
Proof.
  destruct (Keyboard_Release_spec example_Modifier browser_ok example_page example_world)
    as (Hidle & _ & Hscenario).
  split.
  - apply Hidle. apply not_elem_of_empty.
  - apply (Hscenario "ShiftLeft" "KeyA"); [discriminate | reflexivity].
Defined.

Lemma Mouse_call_error_witness :
  fst (Mouse_Down example_Modifier example_EncodeMouseButton browser_closed
         example_page "left" 1%Z example_world) = Some (ErrCall "context canceled") ∧
  buttons (snd (Mouse_Down example_Modifier example_EncodeMouseButton browser_closed
                  example_page "left" 1%Z example_world)) = [] ∧
  fst (Mouse_Up example_Modifier example_EncodeMouseButton browser_closed
         example_page "left" 1%Z (set_buttons ["left"] example_world))
    = Some (ErrCall "context canceled") ∧
  buttons (snd (Mouse_Up example_Modifier example_EncodeMouseButton browser_closed
                  example_page "left" 1%Z (set_buttons ["left"] example_world))) = ["left"].
Proof.
  destruct (Mouse_call_error example_Modifier example_EncodeMouseButton browser_closed
              example_page "left" 1%Z example_world (ErrCall "context canceled"))
    as [Hdown _].
  destruct (Mouse_call_error example_Modifier example_EncodeMouseButton browser_closed
              example_page "left" 1%Z (set_buttons ["left"] example_world)
              (ErrCall "context canceled"))
    as [_ Hup].
  destruct (Hdown eq_refl) as (Hd1 & Hd2 & _).
  destruct (Hup eq_refl) as (Hu1 & Hu2 & _).
  repeat split; assumption.
Defined.

Lemma Mouse_buttons_spec_witness :
  NoDup (buttons (snd (Mouse_ops example_Modifier example_EncodeMouseButton browser_ok
                         example_page
                         (take 3 [OpDown "left" 1%Z; OpDown "right" 1%Z; OpUp "left" 1%Z])
                         example_world))) ∧
  filter (λ btn, btn ≠ "left") (buttons (set_buttons ["left"; "right"] example_world))
    = remove_first "left" (buttons (set_buttons ["left"; "right"] example_world)).
Proof.
  destruct (Mouse_buttons_spec example_Modifier example_EncodeMouseButton browser_ok
              example_page example_world) as (_ & _ & _ & Hseq).
  destruct (Mouse_buttons_spec example_Modifier example_EncodeMouseButton browser_ok
              example_page (set_buttons ["left"; "right"] example_world))
    as (_ & _ & Hfirst & _).
  split.
  - apply Hseq.
    + apply NoDup_nil_2.
    + simpl. repeat split.
      * apply not_elem_of_nil.
      * intros Hin%list_elem_of_singleton. discriminate.
  - apply Hfirst. simpl. apply NoDup_cons. split.
    + intros Hin%list_elem_of_singleton. discriminate.
    + apply NoDup_singleton.
Defined.

(** C6, as the spec states it, fails: pressing the left button twice leaves
    it twice on the stack, and releasing it from left, right, left leaves
    right alone, where removing the first equal entry would leave right,
    left. *)
Lemma Mouse_buttons_duplicates :
  (let w2 := snd (Mouse_ops example_Modifier example_EncodeMouseButton browser_ok
                    example_page [OpDown "left" 1%Z; OpDown "left" 1%Z] example_world) in
   buttons w2 = ["left"; "left"] ∧ ¬ NoDup (buttons w2)) ∧
  (let w3 := snd (Mouse_ops example_Modifier example_EncodeMouseButton browser_ok
                    example_page
                    [OpDown "left" 1%Z; OpDown "right" 1%Z; OpDown "left" 1%Z]
                    example_world) in
   let up := Mouse_Up example_Modifier example_EncodeMouseButton browser_ok
               example_page "left" 1%Z w3 in
   fst up = None ∧
   buttons (snd up) = ["right"] ∧
   remove_first "left" (buttons w3) = ["right"; "left"] ∧
   buttons (snd up) ≠ remove_first "left" (buttons w3)).
Proof.
  split.
  - split; [reflexivity|]. simpl. intros Hnd.
    apply NoDup_cons in Hnd as [Hin _]. apply Hin. by left.
  - repeat split. discriminate.
Qed.

Lemma KeyActions_Do_balanced_witness :
  let order := map_to_list (balance_h example_actions) in
  let out := KeyActions_Do_in example_Modifier browser_ok order example_page example_actions
               (Page_newKeyboard example_world) in
  pressed (snd out) = ∅ ∧
  ∃ events,
    trace (snd out) = trace example_world ++ (key_sent example_page <$> events) ∧
    (keyUps events = ["ControlLeft"; "ShiftLeft"] ∨
     keyUps events = ["ShiftLeft"; "ControlLeft"]).
Proof.
  destruct (KeyActions_Do_balanced example_Modifier browser_ok example_page example_actions
              (map_to_list (balance_h example_actions))
              (range_of_map_to_list (balance_h example_actions)))
    as (_ & _ & Hscenario).
  apply (Hscenario example_world "ControlLeft" "ShiftLeft").
  - discriminate.
  - reflexivity.
  - vm_compute. reflexivity.
Defined.

(** C9, as the spec states it, fails: when the browser refuses the keyDown
    of a press, [Do] returns the error at once and the key it has just put
    in the pressed set stays there. *)
Lemma KeyActions_Do_leaves_pressed :
  let actions := KeyActions_Press ["ControlLeft"] [] in
  let out := KeyActions_Do example_Modifier browser_closed example_page actions
               (Page_newKeyboard example_world) in
  KeyActions_balance actions =
    [mkKeyAction KeyActionPress "ControlLeft"; mkKeyAction KeyActionRelease "ControlLeft"] ∧
  fst out = Some (ErrCall "context canceled") ∧
  "ControlLeft" ∈ pressed (snd out) ∧
  "ControlLeft" ∈ KAKey <$> actions.
Proof.
  intros actions out. split; [|split; [|split]].
  - vm_compute. reflexivity.
  - vm_compute. reflexivity.
  - apply elem_of_union_l, elem_of_singleton. reflexivity.
  - apply list_elem_of_singleton. reflexivity.
Qed.

Lemma Page_Navigate_spec_witness :
  (let out := Page_Navigate browser_ok example_page "" example_world in
   trace (snd out) = [("S1", ReqPageStopLoading); ("S1", ReqPageNavigate "about:blank")] ∧
   fst out = None ∧
   jsCtx (snd out) !! 1%positive = Some "") ∧
  (let out := Page_Navigate browser_offline example_page "http://nowhere.invalid/"
                (set_jsCtx {[1%positive := "ctx-7"]} example_world) in
   fst out = Some (NavigationError "net::ERR_NAME_NOT_RESOLVED") ∧
   jsCtx (snd out) = {[1%positive := "ctx-7"]}) ∧
  (let out := Page_Navigate browser_closed example_page "http://example.com/"
                (set_jsCtx {[1%positive := "ctx-7"]} example_world) in
   fst out = Some (ErrCall "context canceled") ∧
   jsCtx (snd out) = {[1%positive := "ctx-7"]}).
Proof.
  destruct (Page_Navigate_spec browser_ok example_page "" example_world)
    as (_ & Htrace & _ & _ & Hok).
  destruct (Page_Navigate_spec browser_offline example_page "http://nowhere.invalid/"
              (set_jsCtx {[1%positive := "ctx-7"]} example_world))
    as (_ & _ & _ & Htext & _).
  destruct (Page_Navigate_spec browser_closed example_page "http://example.com/"
              (set_jsCtx {[1%positive := "ctx-7"]} example_world))
    as (_ & _ & Herr & _ & _).
  split; [|split].
  - destruct (Hok ResEmpty eq_refl eq_refl) as (Hnil & _ & Hslot).
    split; [exact Htrace|]. split; [exact Hnil | exact Hslot].
  - apply (Htext (ResPageNavigate "net::ERR_NAME_NOT_RESOLVED") eq_refl). discriminate.
  - apply (Herr (ErrCall "context canceled") eq_refl).
Defined.

Lemma Page_Close_spec_witness :
  let denied := mkMessage "S1" (EvJavascriptDialogClosed (mkDialogClosed false)) in
  let destroyed := mkMessage "" (EvTargetDestroyed (mkDestroyed "T1")) in
  (fst (Page_Close browser_navigating 5 example_page
          (example_pending ++ denied :: [destroyed]) example_world)
     = Some (Some PageCloseCanceledError) ∧
   cleaned (snd (Page_Close browser_navigating 5 example_page
                   (example_pending ++ denied :: [destroyed]) example_world)) = []) ∧
  (fst (Page_Close browser_navigating 5 example_page
          (example_pending ++ destroyed :: [denied]) example_world) = Some None ∧
   cleaned (snd (Page_Close browser_navigating 5 example_page
                   (example_pending ++ destroyed :: [denied]) example_world)) = ["T1"]).
Proof.
  assert (Hcall : Page_Close_call browser_navigating 2 example_page example_world
                  = (Some None,
                     snd (Page_Close_call browser_navigating 2 example_page example_world)))
    by reflexivity.
  assert (Hfuel : 2 ≤ 5) by lia.
  split.
  - destruct (Page_Close_spec browser_navigating 2 5 example_page example_pending
                [mkMessage "" (EvTargetDestroyed (mkDestroyed "T1"))]
                example_world _ Hcall Hfuel) as [Hdenied _].
    apply Hdenied.
    intros msg Hin. apply elem_of_cons in Hin as [->|Hin]; [discriminate|].
    apply list_elem_of_singleton in Hin as ->. discriminate.
  - destruct (Page_Close_spec browser_navigating 2 5 example_page example_pending
                [mkMessage "S1" (EvJavascriptDialogClosed (mkDialogClosed false))]
                example_world _ Hcall Hfuel) as [_ Hdestroyed].
    apply Hdestroyed.
    intros msg Hin [_ Hp]. apply elem_of_cons in Hin as [->|Hin]; [discriminate|].
    apply list_elem_of_singleton in Hin as ->. discriminate.
Defined.

Lemma Page_Screenshot_restores_witness :
  (let out := Page_Screenshot (λ f : Z, f) browser_no_capture states_none
                example_page true None example_world in
   fst out = inr (ErrCall "capture failed") ∧
   last (trace (snd out)) = Some ("S1", ReqEmulationClearDeviceMetricsOverride)) ∧
  (let out := Page_Screenshot (λ f : Z, f) browser_no_capture states_phone
                example_page true None example_world in
   fst out = inr (ErrCall "capture failed") ∧
   last (trace (snd out)) = Some ("S1", ReqEmulationSetDeviceMetricsOverride example_phone)).
Proof.
  split.
  - destruct (Page_Screenshot_restores (λ f : Z, f) browser_no_capture states_none
                example_page None example_world (mkRect 800%Z 6000%Z) ResEmpty
                eq_refl eq_refl) as (_ & Hlast & Hout).
    split; [exact Hout | exact Hlast].
  - destruct (Page_Screenshot_restores (λ f : Z, f) browser_no_capture states_phone
                example_page None example_world (mkRect 800%Z 6000%Z) ResEmpty
                eq_refl eq_refl) as (_ & Hlast & Hout).
    split; [exact Hout | exact Hlast].
Defined.

Lemma Page_initEvents_destroyed_witness :
  Page_initEvents example_page [mkMessage "" (EvTargetDestroyed (mkDestroyed "T1"))]
    = ([], false) ∧
  Page_initEvents example_page
    (example_pending ++ [mkMessage "" (EvDetachedFromTarget (mkDetached "S1"))])
    = ([mkMessage "S1" (EvJavascriptDialogClosed (mkDialogClosed true))], true).
Proof.
  assert (Hpending : ∀ msg, msg ∈ example_pending →
            MsgPayload msg ≠ EvDetachedFromTarget (mkDetached (SessionID example_page))).
  { intros msg Hin. apply elem_of_cons in Hin as [->|Hin]; [discriminate|].
    apply list_elem_of_singleton in Hin as ->. discriminate. }
  assert (Htarget : TargetID example_page ≠ "") by discriminate.
  destruct (Page_initEvents_destroyed example_page example_pending [] Htarget Hpending)
    as (Hdetached & _ & Hdestroyed).
  split.
  - exact (Hdestroyed "").
  - exact (Hdetached "").
Defined.

Lemma WaitRequestIdle_counts_once_witness :
  let handle := WaitRequestIdle_event (λ _ _ _, true) [""] []
                  (WaitRequestIdle_excludeTypes None) in
  let st1 := handle (EvRequestWillBeSent (mkWillBeSent "1" "/a" "Document"))
               (mkRequestIdle ∅ 0) in
  let st2 := handle (EvRequestWillBeSent (mkWillBeSent "1" "/b" "Document")) st1 in
  let st3 := handle (EvLoadingFinished (mkFinished "1")) st2 in
  st2 = mkRequestIdle {["1" := "/a"]} 1 ∧ st3 = mkRequestIdle ∅ 0.
Proof.
  destruct (WaitRequestIdle_counts_once (λ _ _ _, true) [""] []
              (WaitRequestIdle_excludeTypes None) (mkRequestIdle ∅ 0))
    as (_ & _ & Hscenario).
  apply (Hscenario "1" "/a" "/b" "Document"); [|reflexivity|reflexivity].
  apply excluded_type. reflexivity.
Defined.

Lemma Page_WaitStable_first_finished_witness :
  Page_WaitStable [TaskWaitRequestIdle; TaskWaitLoad; TaskWaitDOMStable]
    None (Some (ErrCall "context deadline exceeded")) = None ∧
  Page_WaitStable [TaskWaitRequestIdle; TaskWaitDOMStable; TaskWaitLoad]
    None (Some (ErrCall "context deadline exceeded"))
    = Some (ErrCall "context deadline exceeded").
Proof.
  assert (Hidle : ∀ t, t ∈ [TaskWaitRequestIdle] → t = TaskWaitRequestIdle).
  { intros t Hin. by apply list_elem_of_singleton in Hin. }
  split.
  - exact (proj1 (Page_WaitStable_first_finished None
                    (Some (ErrCall "context deadline exceeded"))
                    [TaskWaitRequestIdle] [TaskWaitDOMStable] Hidle)).
  - exact (proj1 (proj2 (Page_WaitStable_first_finished None
                    (Some (ErrCall "context deadline exceeded"))
                    [TaskWaitRequestIdle] [TaskWaitLoad] Hidle))).
Defined.

(** ** Instances of the further properties *)

(** Tracing is off, and the tracer does nothing. *)
Definition example_tracer
  : M (Key := string) (InputMouseButton := string) (float64 := Z) unit :=
  λ w, (tt, w).

(** A browser that reads the content size and refuses every override of the
    device metrics. *)
Definition browser_no_override
  : list (Sent (Key := string) (InputMouseButton := string) (float64 := Z))
    → Sent (Key := string) (InputMouseButton := string) (float64 := Z)
    → Reply (float64 := Z) :=
  λ _ call, match call.2 with
            | ReqPageGetLayoutMetrics =>
                ReplyOk (ResPageGetLayoutMetrics (Some (mkRect 800%Z 6000%Z)))
            | ReqEmulationSetDeviceMetricsOverride _ => ReplyErr (ErrCall "not allowed")
            | _ => ReplyOk ResEmpty
            end.

Lemma Keyboard_modifiers_bits_witness :
  Z.testbit (Keyboard_modifiers example_Modifier
               (set_pressed {["ShiftLeft"; "KeyA"]} example_world)) 3 = true.
Proof.
  apply (Keyboard_modifiers_bits example_Modifier
           (set_pressed {["ShiftLeft"; "KeyA"]} example_world) 3).
  exists "ShiftLeft". split; [|reflexivity].
  apply elem_of_union_l, elem_of_singleton. reflexivity.
Defined.

Lemma Keyboard_Press_Release_witness :
  let w := set_pressed {["ControlLeft"]} example_world in
  let w1 := snd (Keyboard_Press example_Modifier browser_closed example_page "ShiftLeft" w) in
  let w2 := snd (Keyboard_Release example_Modifier browser_closed example_page "ShiftLeft" w1) in
  pressed w2 = pressed w ∧
  trace w2 = trace w ++
    [key_sent example_page
       (Key_Encode InputDispatchKeyEventTypeKeyDown "ShiftLeft"
          (Z.lor (example_Modifier "ShiftLeft") (Keyboard_modifiers example_Modifier w)));
     key_sent example_page
       (Key_Encode InputDispatchKeyEventTypeKeyUp "ShiftLeft"
          (Keyboard_modifiers example_Modifier w))].
Proof.
  apply (Keyboard_Press_Release example_Modifier browser_closed example_page "ShiftLeft"
           (set_pressed {["ControlLeft"]} example_world)).
  simpl. intros Hin%elem_of_singleton. discriminate.
Defined.

Lemma Keyboard_Press_again_witness :
  let w := set_pressed {["KeyA"]} example_world in
  let w1 := snd (Keyboard_Press example_Modifier browser_ok example_page "KeyA" w) in
  pressed w1 = pressed w ∧
  trace w1 = trace w ++
    [key_sent example_page
       (Key_Encode InputDispatchKeyEventTypeKeyDown "KeyA"
          (Keyboard_modifiers example_Modifier w))] ∧
  "KeyA" ∉ pressed (snd (Keyboard_Release example_Modifier browser_ok example_page "KeyA" w1)).
Proof.
  apply (Keyboard_Press_again example_Modifier browser_ok example_page "KeyA"
           (set_pressed {["KeyA"]} example_world)).
  simpl. apply elem_of_singleton. reflexivity.
Defined.

Lemma KeyActions_balance_idempotent_witness :
  (let order := map_to_list (balance_h example_actions) in
   let balanced := KeyActions_balance_in order example_actions in
   let order' := map_to_list (balance_h balanced) in
   KeyActions_balance_in order' balanced = balanced) ∧
  (let typed := KeyActions_Type ["KeyA"] (KeyActions_Press ["KeyA"] []) in
   KeyActions_balance_in (map_to_list (balance_h typed)) typed = typed).
Proof.
  split.
  - exact (proj2 (KeyActions_balance_idempotent example_Modifier example_actions
                    _ _ (range_of_map_to_list _) (range_of_map_to_list _))).
  - refine (proj1 (KeyActions_balance_idempotent example_Modifier
                     (KeyActions_Type ["KeyA"] (KeyActions_Press ["KeyA"] []))
                     _ _ (range_of_map_to_list _) (range_of_map_to_list _)) _).
    intros key.
    change (KeyActions_Type ["KeyA"] (KeyActions_Press ["KeyA"] []))
      with ([mkKeyAction KeyActionPress "KeyA"] ++ [mkKeyAction KeyActionTypeKey "KeyA"]).
    rewrite final_action_snoc. simpl.
    destruct (decide ("KeyA" = key)) as [Heq|Hne]; [discriminate|].
    unfold final_action. rewrite filter_cons_False by done. discriminate.
Defined.

Lemma KeyActions_Do_Type_witness :
  let scheduled := KeyActions_Type ["KeyA"; "KeyB"] [] in
  KeyActions_Do_in example_Modifier browser_ok (map_to_list (balance_h scheduled))
    example_page scheduled example_world
  = Keyboard_Type example_Modifier browser_ok example_page ["KeyA"; "KeyB"] example_world.
Proof.
  exact (KeyActions_Do_Type example_Modifier browser_ok example_page ["KeyA"; "KeyB"]
           _ example_world (range_of_map_to_list _)).
Defined.

Lemma Keyboard_Type_ok_witness :
  let w := set_pressed {["KeyA"]} example_world in
  let out := Keyboard_Type example_Modifier browser_ok example_page ["KeyA"; "KeyB"] w in
  pressed (snd out) = pressed w ∖ list_to_set ["KeyA"; "KeyB"] ∧
  ∃ events,
    trace (snd out) = trace w ++ (key_sent example_page <$> events) ∧
    (λ e, (KeyType e, KeyOf e)) <$> events
    = ["KeyA"; "KeyB"] ≫= λ key, [(InputDispatchKeyEventTypeKeyDown, key);
                                  (InputDispatchKeyEventTypeKeyUp, key)].
Proof.
  refine (Keyboard_Type_ok example_Modifier browser_ok example_page ["KeyA"; "KeyB"]
            (set_pressed {["KeyA"]} example_world) _).
  vm_compute. reflexivity.
Defined.

Lemma Mouse_MoveTo_spec_witness :
  let to := mkPoint 30%Z 40%Z in
  (Mouse_MoveTo example_Modifier example_EncodeMouseButton browser_closed false
     example_tracer example_page to example_world
   = (Some (ErrCall "context canceled"),
      set_trace (trace example_world
                 ++ [Mouse_moved example_Modifier example_EncodeMouseButton example_page
                       to example_world])
        example_world)) ∧
  (let out := Mouse_MoveTo example_Modifier example_EncodeMouseButton browser_ok false
                example_tracer example_page to example_world in
   pos (snd out) = to ∧ buttons (snd out) = buttons example_world).
Proof.
  split.
  - exact (proj1 (Mouse_MoveTo_spec example_Modifier example_EncodeMouseButton
                    browser_closed false example_tracer example_page
                    (mkPoint 30%Z 40%Z) example_world)
             (ErrCall "context canceled") eq_refl).
  - destruct (proj2 (Mouse_MoveTo_spec example_Modifier example_EncodeMouseButton
                       browser_ok false example_tracer example_page
                       (mkPoint 30%Z 40%Z) example_world) eq_refl)
      as (_ & Hbuttons & _ & Hpos & _).
    split; [exact (Hpos eq_refl) | exact Hbuttons].
Defined.

Lemma Mouse_MoveAlong_spec_witness :
  let out := Mouse_MoveAlong example_Modifier example_EncodeMouseButton browser_ok false
               example_tracer example_page
               ([(mkPoint 2%Z 2%Z, false); (mkPoint 4%Z 4%Z, false)]
                ++ (mkPoint 6%Z 6%Z, true) :: [])
               example_world in
  pos (snd out) = mkPoint 6%Z 6%Z ∧
  length (trace (snd out))
  = (length (trace example_world)
     + length [(mkPoint 2%Z 2%Z, false); (mkPoint 4%Z 4%Z, false)] + 1)%nat.
Proof.
  assert (Hgo : ∀ answer : Point (float64 := Z) * bool,
            answer ∈ [(mkPoint 2%Z 2%Z, false); (mkPoint 4%Z 4%Z, false)] →
            answer.2 = false).
  { intros answer Hin. apply elem_of_cons in Hin as [->|Hin]; [reflexivity|].
    apply list_elem_of_singleton in Hin as ->. reflexivity. }
  destruct (Mouse_MoveAlong_spec example_Modifier example_EncodeMouseButton browser_ok
              false example_tracer example_page
              [(mkPoint 2%Z 2%Z, false); (mkPoint 4%Z 4%Z, false)] []
              (mkPoint 6%Z 6%Z) example_world eq_refl Hgo) as (_ & Hok & _).
  exact (Hok eq_refl).
Defined.

Lemma Mouse_Click_spec_witness :
  let out := Mouse_Click example_Modifier example_EncodeMouseButton browser_ok
               example_page "left" 1%Z (set_buttons ["right"] example_world) in
  buttons (snd out) = buttons (set_buttons ["right"] example_world) ∧
  (let failed := Mouse_Click example_Modifier example_EncodeMouseButton browser_closed
                   example_page "left" 1%Z example_world in
   fst failed = Some (ErrCall "context canceled") ∧
   buttons (snd failed) = buttons example_world ∧
   length (trace (snd failed)) = (length (trace example_world) + 1)%nat).
Proof.
  split.
  - destruct (Mouse_Click_spec example_Modifier example_EncodeMouseButton browser_ok
                example_page "left" 1%Z (set_buttons ["right"] example_world))
      as (Hok & _ & _).
    destruct (Hok eq_refl) as (_ & Hkept & _). apply Hkept.
    simpl. intros Hin%list_elem_of_singleton. discriminate.
  - destruct (Mouse_Click_spec example_Modifier example_EncodeMouseButton browser_closed
                example_page "left" 1%Z example_world) as (_ & Hdown & _).
    exact (Hdown (ErrCall "context canceled") eq_refl).
Defined.

Lemma Mouse_Down_modifiers_witness :
  let w1 := snd (Keyboard_Press example_Modifier browser_ok example_page "ShiftLeft"
                   example_world) in
  let w2 := snd (Mouse_Down example_Modifier example_EncodeMouseButton browser_ok
                   example_page "left" 1%Z w1) in
  ∃ ev,
    trace w2 = trace w1 ++ [(SessionID example_page, ReqInputDispatchMouseEvent ev)] ∧
    MouseType ev = InputDispatchMouseEventTypeMousePressed ∧
    Button ev = "left" ∧
    Z.testbit (MouseModifiers ev) 3 = true.
Proof.
  destruct (Mouse_Down_modifiers example_Modifier example_EncodeMouseButton browser_ok
              example_page "ShiftLeft" "left" 1%Z 3%Z example_world)
    as (ev & Htrace & Htype & Hbutton & Hbit).
  exists ev. split; [exact Htrace|]. split; [exact Htype|]. split; [exact Hbutton|].
  exact (Hbit eq_refl).
Defined.

Lemma Page_Screenshot_early_witness :
  (Page_Screenshot (λ f : Z, f) browser_ok states_none example_page true None example_world
   = (inr (ErrNew "failed to get css content size"),
      set_trace (trace example_world ++ [(SessionID example_page, ReqPageGetLayoutMetrics)])
        example_world)) ∧
  (let t1 := trace example_world ++ [(SessionID example_page, ReqPageGetLayoutMetrics)] in
   let view := {| Width := 800; Height := 6000;
                  Mobile := Mobile (default EmulationSetDeviceMetricsOverride_zero
                                      (states_phone t1 (SessionID example_page))) |} in
   Page_Screenshot (λ f : Z, f) browser_no_override states_phone example_page true None
     example_world
   = (inr (ErrCall "not allowed"),
      set_trace (t1 ++ [(SessionID example_page, ReqEmulationSetDeviceMetricsOverride view)])
        example_world)).
Proof.
  split.
  - destruct (Page_Screenshot_early (λ f : Z, f) browser_ok states_none example_page None
                example_world) as (_ & _ & Hsize & _).
    exact (Hsize ResEmpty eq_refl eq_refl).
  - destruct (Page_Screenshot_early (λ f : Z, f) browser_no_override states_phone
                example_page None example_world) as (_ & _ & _ & Hrefused).
    exact (Hrefused (ResPageGetLayoutMetrics (Some (mkRect 800%Z 6000%Z)))
             (mkRect 800%Z 6000%Z) (ErrCall "not allowed") eq_refl eq_refl eq_refl).
Defined.

Lemma Page_Close_call_retries_witness :
  let close := (SessionID example_page, ReqPageClose) in
  Page_Close_call browser_navigating 7 example_page example_world
  = (Some (Reply_err (browser_navigating (trace example_world ++ replicate 1 close) close)),
     set_trace (trace example_world ++ replicate 2 close) example_world).
Proof.
  assert (Hfirst : ∀ i, i < 1 →
            browser_navigating
              (trace example_world ++ replicate i (SessionID example_page, ReqPageClose))
              (SessionID example_page, ReqPageClose)
            = ReplyErr ErrNotAttachedToActivePage).
  { intros i Hi. assert (i = 0) as -> by lia. reflexivity. }
  assert (Hfuel : 1 < 7) by lia.
  exact (proj1 (Page_Close_call_retries browser_navigating example_page 1 example_world
                  Hfirst) eq_refl 7 Hfuel).
Defined.

Lemma Page_Close_outcomes_witness :
  (Page_Close browser_closed 3 example_page example_pending example_world
   = (Some (Some (ErrCall "context canceled")),
      snd (Page_Close_call browser_closed 3 example_page example_world))) ∧
  (let w1 := snd (Page_Close_call browser_navigating 3 example_page example_world) in
   Page_Close browser_navigating 3 example_page example_pending example_world
   = (Some None, set_cleaned (cleaned w1 ++ [TargetID example_page]) w1)).
Proof.
  split.
  - destruct (Page_Close_outcomes browser_closed 3 example_page example_pending
                example_world _ (Some (ErrCall "context canceled")) eq_refl)
      as [Hfailed _].
    exact (proj1 (Hfailed (ErrCall "context canceled") eq_refl)).
  - destruct (Page_Close_outcomes browser_navigating 3 example_page example_pending
                example_world _ None eq_refl) as [_ Hwent].
    destruct (Hwent eq_refl) as [_ Hquiet]. apply Hquiet.
    intros msg Hin [_ Hp]. apply elem_of_cons in Hin as [->|Hin]; [discriminate|].
    apply list_elem_of_singleton in Hin as ->. discriminate.
Defined.

Lemma Page_initEvents_publishes_witness :
  fst (Page_initEvents example_page
         (example_pending ++ [mkMessage "S1" (EvOther "Page.frameNavigated")]))
  = own_messages example_page
      (example_pending ++ [mkMessage "S1" (EvOther "Page.frameNavigated")]).
Proof.
  exact (proj2 (Page_initEvents_publishes example_page
                  (example_pending ++ [mkMessage "S1" (EvOther "Page.frameNavigated")]))
           eq_refl).
Defined.

(** A request, its redirect, its end, and a second request. *)
Definition example_requests : list Payload :=
  [EvRequestWillBeSent (mkWillBeSent "1" "/a" "Document");
   EvRequestWillBeSent (mkWillBeSent "1" "/b" "Document");
   EvLoadingFinished (mkFinished "1");
   EvRequestWillBeSent (mkWillBeSent "2" "/c" "Script")].

Lemma WaitRequestIdle_in_flight_witness :
  is_Some (waitList (WaitRequestIdle_events (λ _ _ _, true) [] [] None example_requests)
           !! "2") ∧
  ¬ in_flight (λ _ _ _, true) (WaitRequestIdle_includes []) []
      (WaitRequestIdle_excludeTypes None) "1" example_requests.
Proof.
  split.
  - apply (WaitRequestIdle_in_flight (λ _ _ _, true) [] [] None example_requests "2").
    exact I.
  - intros Hflight.
    apply (WaitRequestIdle_in_flight (λ _ _ _, true) [] [] None example_requests "1")
      in Hflight.
    destruct Hflight as [u Hu]. discriminate Hu.
Defined.

Lemma Page_WaitStable_sound_witness :
  is_Some (Page_WaitStable [TaskWaitLoad; TaskWaitRequestIdle; TaskWaitDOMStable]
             (Some (ErrCall "load failed")) (Some (ErrCall "context deadline exceeded"))).
Proof.
  assert (Hall : all_complete [TaskWaitLoad; TaskWaitRequestIdle; TaskWaitDOMStable])
    by (unfold all_complete; reflexivity).
  destruct (Page_WaitStable_sound (Some (ErrCall "load failed"))
              (Some (ErrCall "context deadline exceeded")) _ Hall) as (_ & _ & Hboth).
  apply Hboth; eexists; reflexivity.
Defined.

Lemma Page_String_short_witness :
  Page_String example_page = "<page:" +:+ TargetID example_page +:+ ">" ∧
  String.length (Page_String (mkPage "0123456789ABCDEF" "F1" "S1" 1%positive None)) ≤ 15.
Proof.
  destruct (Page_String_short example_page) as (_ & _ & Hwhole & _).
  destruct (Page_String_short (mkPage "0123456789ABCDEF" "F1" "S1" 1%positive None))
    as (_ & Hbound & _).
  split; [|exact Hbound]. apply Hwhole. simpl. lia.
Defined.

Lemma SetExtraHeaders_headers_spec_witness :
  SetExtraHeaders_headers ["Accept"; "text/html"; "X-Debug"] ∅ = None ∧
  ∃ filled,
    SetExtraHeaders_headers (dict_of [("A", "1"); ("B", "2"); ("A", "3")]) ∅ = Some filled ∧
    filled !! "A" = Some "3" ∧ filled !! "C" = None.
Proof.
  split.
  - apply (SetExtraHeaders_headers_spec ["Accept"; "text/html"; "X-Debug"] ∅).
    exists 1. reflexivity.
  - destruct (proj2 (SetExtraHeaders_headers_spec
                       (dict_of [("A", "1"); ("B", "2"); ("A", "3")]) ∅)
                _ eq_refl) as (filled & Hfilled & Hlookup).
    exists filled. split; [exact Hfilled|]. split.
    + rewrite (Hlookup "A"). reflexivity.
    + rewrite (Hlookup "C"). reflexivity.
Defined.
